(** * domaininfo: domain validation, address resolution and geolocation fallback

    A shallow embedding of [main.go] of the package [domaininfo]
    and the properties of its normaliser, resolver, provider adapters and
    fallback orchestrator.

    Go strings are byte sequences: they are modelled by [string] (a list
    of [ascii], one per byte).  Functions that return a Go pair
    of a pointer and an error return a pair of options here, so that a nil
    pointer next to a nil error is a value of the model and its absence is
    a theorem. *)

From Stdlib Require Import String Ascii List Bool Arith ZArith Lia.
From Stdlib Require Import Floats.SpecFloat.
Import ListNotations.

Set Implicit Arguments.

Local Open Scope string_scope.
Local Open Scope list_scope.
Local Open Scope nat_scope.

(** ** Regular expressions (package [regexp])

    The fragment of RE2 syntax used by [isValidDomainFormat]: character
    classes, escaped literals, concatenation, groups and the repetitions
    [?], [+], [{n,m}], [{n,}].  [Void] and [Alt] only arise as derivatives.
    All classes of the pattern are ASCII, so a byte of a multi-byte rune
    belongs to none of them and matching bytes agrees with matching
    runes. *)
Module Regexp.

Inductive regexp : Type :=
| Void : regexp
| Empty : regexp
| Class : (ascii -> bool) -> regexp
| Cat : regexp -> regexp -> regexp
| Alt : regexp -> regexp -> regexp
| Rep : regexp -> nat -> option nat -> regexp.

(** [r?], [r+] and an escaped literal. *)
Definition Opt (r : regexp) : regexp := Rep r 0 (Some 1).
Definition Plus (r : regexp) : regexp := Rep r 1 None.
Definition Lit (c : ascii) : regexp := Class (Ascii.eqb c).

Definition within (hi : option nat) (k : nat) : Prop :=
  match hi with Some h => k <= h | None => True end.

Definition withinb (hi : option nat) (k : nat) : bool :=
  match hi with Some h => k <=? h | None => true end.

(** [k] consecutive words of the language [L]. *)
Fixpoint pow (L : list ascii -> Prop) (k : nat) (s : list ascii) : Prop :=
  match k with
  | 0 => s = []
  | S k' => exists s1 s2, s = s1 ++ s2 /\ L s1 /\ pow L k' s2
  end.

(** The language of a regular expression. *)
Fixpoint lang (r : regexp) (s : list ascii) : Prop :=
  match r with
  | Void => False
  | Empty => s = []
  | Class cl => exists c, s = [c] /\ cl c = true
  | Cat r1 r2 => exists s1 s2, s = s1 ++ s2 /\ lang r1 s1 /\ lang r2 s2
  | Alt r1 r2 => lang r1 s \/ lang r2 s
  | Rep r1 lo hi => exists k, lo <= k /\ within hi k /\ pow (lang r1) k s
  end.

Fixpoint nullable (r : regexp) : bool :=
  match r with
  | Void => false
  | Empty => true
  | Class _ => false
  | Cat r1 r2 => nullable r1 && nullable r2
  | Alt r1 r2 => nullable r1 || nullable r2
  | Rep r1 lo hi => withinb hi lo && ((lo =? 0) || nullable r1)
  end.

(** Brzozowski derivative. *)
Fixpoint deriv (c : ascii) (r : regexp) : regexp :=
  match r with
  | Void => Void
  | Empty => Void
  | Class cl => if cl c then Empty else Void
  | Cat r1 r2 =>
      if nullable r1 then Alt (Cat (deriv c r1) r2) (deriv c r2)
      else Cat (deriv c r1) r2
  | Alt r1 r2 => Alt (deriv c r1) (deriv c r2)
  | Rep r1 lo hi =>
      match hi with
      | Some 0 => Void
      | _ => Cat (deriv c r1) (Rep r1 (pred lo) (option_map pred hi))
      end
  end.

(** Whole-text match, as [MatchString] does for a pattern anchored by
    [^] and [$]. *)
Fixpoint matches (r : regexp) (s : list ascii) : bool :=
  match s with
  | [] => nullable r
  | c :: s' => matches (deriv c r) s'
  end.

End Regexp.

Import Regexp.

(** ** Character classes of the pattern *)

Definition between (lo hi c : ascii) : bool :=
  (N_of_ascii lo <=? N_of_ascii c)%N && (N_of_ascii c <=? N_of_ascii hi)%N.

Definition is_alpha (c : ascii) : bool :=
  between "a" "z" c || between "A" "Z" c.

Definition is_alnum (c : ascii) : bool :=
  is_alpha c || between "0" "9" c.

Definition is_alnum_hyphen (c : ascii) : bool :=
  is_alnum c || Ascii.eqb c "-".

(** [^[a-zA-Z0-9]([a-zA-Z0-9-]{0,61}[a-zA-Z0-9])?(\.[a-zA-Z]{2,})+$] *)
Definition domainRegex : regexp :=
  Cat (Class is_alnum)
    (Cat (Opt (Cat (Rep (Class is_alnum_hyphen) 0 (Some 61)) (Class is_alnum)))
         (Plus (Cat (Lit ".") (Rep (Class is_alpha) 2 None)))).

Definition isValidDomainFormat (domain : string) : bool :=
  matches domainRegex (list_ascii_of_string domain).

(** ** Package [strings] *)

(** [CutPrefix p s] is the rest of [s] after its prefix [p], if [s] starts
    with [p]. *)
Fixpoint CutPrefix (p s : string) : option string :=
  match p with
  | EmptyString => Some s
  | String a p' =>
      match s with
      | EmptyString => None
      | String b s' => if Ascii.eqb a b then CutPrefix p' s' else None
      end
  end.

Definition HasPrefix (s p : string) : bool :=
  match CutPrefix p s with Some _ => true | None => false end.

Definition TrimPrefix (s p : string) : string :=
  match CutPrefix p s with Some r => r | None => s end.

Definition bytes (l : list nat) : string :=
  string_of_list_ascii (map ascii_of_nat l).

Definition srev (s : string) : string :=
  string_of_list_ascii (rev (list_ascii_of_string s)).

(** The UTF-8 encodings of the code points for which [unicode.IsSpace]
    holds: U+0009..U+000D, U+0020, U+0085, U+00A0, U+1680,
    U+2000..U+200A, U+2028, U+2029, U+202F, U+205F, U+3000.  A string
    starts (ends) with one of them exactly when its first (last) rune,
    as [utf8.DecodeRuneInString] ([utf8.DecodeLastRuneInString]) reads it,
    is white space. *)
Definition space_encodings : list string :=
  map bytes
    [ [9]; [10]; [11]; [12]; [13]; [32]; [194; 133]; [194; 160];
      [225; 154; 128];
      [226; 128; 128]; [226; 128; 129]; [226; 128; 130]; [226; 128; 131];
      [226; 128; 132]; [226; 128; 133]; [226; 128; 134]; [226; 128; 135];
      [226; 128; 136]; [226; 128; 137]; [226; 128; 138];
      [226; 128; 168]; [226; 128; 169]; [226; 128; 175];
      [226; 129; 159]; [227; 128; 128] ].

(** The rest of [s] after the first of [encs] that [s] starts with. *)
Fixpoint cut_any (encs : list string) (s : string) : option string :=
  match encs with
  | [] => None
  | e :: encs' =>
      match CutPrefix e s with
      | Some r => Some r
      | None => cut_any encs' s
      end
  end.

(** Drops leading words of [encs], one per unit of [fuel]. *)
Fixpoint trim_leading (encs : list string) (fuel : nat) (s : string) : string :=
  match fuel with
  | 0 => s
  | S fuel' =>
      match cut_any encs s with
      | Some r => trim_leading encs fuel' r
      | None => s
      end
  end.

Definition TrimLeftSpace (s : string) : string :=
  trim_leading space_encodings (String.length s) s.

Definition TrimRightSpace (s : string) : string :=
  srev (trim_leading (map srev space_encodings) (String.length s) (srev s)).

Definition TrimSpace (s : string) : string :=
  TrimRightSpace (TrimLeftSpace s).

(** [Split s sep] for a one-byte separator: the pieces of [s] between the
    occurrences of [sep]; never empty. *)
Fixpoint Split (s : string) (sep : ascii) : list string :=
  match s with
  | EmptyString => [EmptyString]
  | String c s' =>
      if Ascii.eqb c sep then EmptyString :: Split s' sep
      else
        match Split s' sep with
        | [] => [String c EmptyString]
        | piece :: pieces => String c piece :: pieces
        end
  end.

(** ** Errors

    An [error] value is kept as a term: a message made by [fmt.Errorf], a
    message wrapping a cause through the verb [%v], an error handed over by
    [net], [net/http] or [io], or one of the two errors of
    [encoding/json]. *)
Inductive error : Type :=
| Errorf (msg : string)
| Errorf_v (msg : string) (cause : error)
| LibError (msg : string)
| SyntaxError
| UnmarshalTypeError (value : string) (target : string).

(** ** Floating point (binary64)

    A [float64] is a [spec_float] of precision 53 and maximal exponent
    1024. *)
Definition float64 : Type := spec_float.
Definition prec64 : Z := 53.
Definition emax64 : Z := 1024.
Definition float64_zero : float64 := S754_zero false.

(** A decimal literal [sign digits . digits]: its sign, the integer its
    digits spell without the point, and the number of digits after the
    point.  It denotes [mant / 10^scale]. *)
Record decimal : Type := mkDecimal {
  dneg : bool;
  dmant : N;
  dscale : nat
}.

Definition digit_value (c : ascii) : option N :=
  if between "0" "9" c then Some (N_of_ascii c - 48)%N else None.

(** Reads digits; returns their value appended to [acc], their number and
    the rest of the string. *)
Fixpoint read_digits (s : string) (acc : N) (count : nat) : N * nat * string :=
  match s with
  | EmptyString => (acc, count, s)
  | String c s' =>
      match digit_value c with
      | Some d => read_digits s' (10 * acc + d)%N (S count)
      | None => (acc, count, s)
      end
  end.

(** A whole string made of an optional sign, digits, and optionally a
    point followed by digits, with at least one digit in all. *)
Definition decimal_literal (s : string) : option decimal :=
  let '(neg, s1) :=
    match s with
    | String "+" r => (false, r)
    | String "-" r => (true, r)
    | _ => (false, s)
    end in
  let '(int_part, n_int, s2) := read_digits s1 0%N 0 in
  match s2 with
  | EmptyString =>
      if n_int =? 0 then None else Some (mkDecimal neg int_part 0)
  | String "." s3 =>
      let '(all_digits, n_frac, s4) := read_digits s3 int_part 0 in
      match s4 with
      | EmptyString =>
          if n_int + n_frac =? 0 then None
          else Some (mkDecimal neg all_digits n_frac)
      | _ => None
      end
  | _ => None
  end.

Fixpoint pow10 (n : nat) : positive :=
  match n with
  | 0 => 1%positive
  | S n' => (10 * pow10 n')%positive
  end.

(** The binary64 nearest to a decimal (ties to even), as
    [strconv.ParseFloat] computes it; [None] when the decimal is out of
    range, where [ParseFloat] reports [ErrRange]. *)
Definition float64_of_decimal (d : decimal) : option float64 :=
  match dmant d with
  | N0 => Some (S754_zero (dneg d))
  | Npos m =>
      match SFdiv prec64 emax64
              (S754_finite (dneg d) m 0)
              (S754_finite false (pow10 (dscale d)) 0)
      with
      | S754_infinity _ => None
      | f => Some f
      end
  end.

(** ** Package [encoding/json]

    A response body is represented by the outcome of the JSON scanner:
    [Malformed] when the bytes are not a JSON text, else the value they
    spell.  A number literal is represented by the binary64 that
    [strconv.ParseFloat] gives it, or by its own text when it is out of
    the range of binary64. *)
#[local] Set Warnings "-register-all".

Inductive json : Type :=
| JNull
| JBool (b : bool)
| JNumber (v : float64 + string)
| JString (s : string)
| JArray (elems : list json)
| JObject (members : list (string * json)).

Inductive document : Type :=
| Malformed
| Wellformed (v : json).

Definition kind_name (v : json) : string :=
  match v with
  | JNull => "null"
  | JBool _ => "bool"
  | JNumber _ => "number"
  | JString _ => "string"
  | JArray _ => "array"
  | JObject _ => "object"
  end.

(** ** The records of the package *)

Record LocationDetails : Type := mkLocationDetails {
  IP : string;
  City : string;
  Region : string;
  Country : string;
  Latitude : float64;
  Longitude : float64
}.

Record DomainInfo : Type := mkDomainInfo {
  OriginalInput : string;
  CleanDomain : string;
  IPAddress : string;
  Location : option LocationDetails
}.

(** The zero value [LocationDetails{}]. *)
Definition LocationDetails_zero : LocationDetails :=
  mkLocationDetails "" "" "" "" float64_zero float64_zero.

Definition set_City (l : LocationDetails) (v : string) : LocationDetails :=
  mkLocationDetails (IP l) v (Region l) (Country l) (Latitude l) (Longitude l).
Definition set_Region (l : LocationDetails) (v : string) : LocationDetails :=
  mkLocationDetails (IP l) (City l) v (Country l) (Latitude l) (Longitude l).
Definition set_Country (l : LocationDetails) (v : string) : LocationDetails :=
  mkLocationDetails (IP l) (City l) (Region l) v (Latitude l) (Longitude l).
Definition set_IP (l : LocationDetails) (v : string) : LocationDetails :=
  mkLocationDetails v (City l) (Region l) (Country l) (Latitude l) (Longitude l).
Definition set_Latitude (l : LocationDetails) (v : float64) : LocationDetails :=
  mkLocationDetails (IP l) (City l) (Region l) (Country l) v (Longitude l).
Definition set_Longitude (l : LocationDetails) (v : float64) : LocationDetails :=
  mkLocationDetails (IP l) (City l) (Region l) (Country l) (Latitude l) v.

(** *** Decoding into [LocationDetails]

    The struct tags name the keys [ip], [city], [region], [country_name],
    [latitude] and [longitude]; a key matches a field when it equals the
    tag up to the case of ASCII letters. *)
Definition to_lower (c : ascii) : ascii :=
  if between "A" "Z" c then ascii_of_N (N_of_ascii c + 32) else c.

Fixpoint lower (s : string) : string :=
  match s with
  | EmptyString => EmptyString
  | String c s' => String (to_lower c) (lower s')
  end.

Definition EqualFold (a b : string) : bool := String.eqb (lower a) (lower b).

(** First error wins, as [saveError] keeps it. *)
Definition save_error (saved new : option error) : option error :=
  match saved with Some _ => saved | None => new end.

Definition decode_string (v : json) (tag : string) (old : string)
  : string * option error :=
  match v with
  | JString s => (s, None)
  | JNull => (old, None)
  | _ => (old, Some (UnmarshalTypeError (kind_name v) tag))
  end.

Definition decode_float (v : json) (tag : string) (old : float64)
  : float64 * option error :=
  match v with
  | JNumber (inl f) => (f, None)
  | JNumber (inr literal) =>
      (old, Some (UnmarshalTypeError ("number " ++ literal) tag))
  | JNull => (old, None)
  | _ => (old, Some (UnmarshalTypeError (kind_name v) tag))
  end.

(** One member of a JSON object stored into the struct; unknown keys are
    skipped. *)
Definition decode_member (l : LocationDetails) (key : string) (v : json)
  : LocationDetails * option error :=
  if EqualFold key "ip" then
    let '(x, e) := decode_string v "ip" (IP l) in (set_IP l x, e)
  else if EqualFold key "city" then
    let '(x, e) := decode_string v "city" (City l) in (set_City l x, e)
  else if EqualFold key "region" then
    let '(x, e) := decode_string v "region" (Region l) in (set_Region l x, e)
  else if EqualFold key "country_name" then
    let '(x, e) := decode_string v "country_name" (Country l) in
    (set_Country l x, e)
  else if EqualFold key "latitude" then
    let '(x, e) := decode_float v "latitude" (Latitude l) in
    (set_Latitude l x, e)
  else if EqualFold key "longitude" then
    let '(x, e) := decode_float v "longitude" (Longitude l) in
    (set_Longitude l x, e)
  else (l, None).

Fixpoint decode_members (members : list (string * json))
    (l : LocationDetails) (saved : option error)
  : LocationDetails * option error :=
  match members with
  | [] => (l, saved)
  | (key, v) :: rest =>
      let '(l', e) := decode_member l key v in
      decode_members rest l' (save_error saved e)
  end.

(** [json.Unmarshal(body, &location)] for [location] of type
    [LocationDetails]: the struct after the call and the error. *)
Definition Unmarshal_LocationDetails (body : document) (l : LocationDetails)
  : LocationDetails * option error :=
  match body with
  | Malformed => (l, Some SyntaxError)
  | Wellformed JNull => (l, None)
  | Wellformed (JObject members) => decode_members members l None
  | Wellformed v => (l, Some (UnmarshalTypeError (kind_name v) "LocationDetails"))
  end.

(** *** Decoding into [map[string]interface{}]

    A map is an association list without repeated keys; the nil map is
    the empty list.  The values keep their JSON form: a type assertion to
    [string] succeeds on [JString] only. *)
Definition gomap : Type := list (string * json).

Fixpoint map_delete (m : gomap) (key : string) : gomap :=
  match m with
  | [] => []
  | (k, v) :: m' =>
      if String.eqb k key then map_delete m' key else (k, v) :: map_delete m' key
  end.

Definition map_store (m : gomap) (key : string) (v : json) : gomap :=
  (key, v) :: map_delete m key.

Fixpoint map_index (m : gomap) (key : string) : option json :=
  match m with
  | [] => None
  | (k, v) :: m' => if String.eqb k key then Some v else map_index m' key
  end.

(** [x.(string)] on the result of indexing a map. *)
Definition assert_string (x : option json) : string * bool :=
  match x with
  | Some (JString s) => (s, true)
  | _ => (EmptyString, false)
  end.

(** The text of the first number, in the order of the document, that does
    not fit a [float64]. *)
Fixpoint first_out_of_range (v : json) : option string :=
  match v with
  | JNumber (inr literal) => Some literal
  | JArray elems =>
      (fix among (l : list json) : option string :=
         match l with
         | [] => None
         | x :: l' =>
             match first_out_of_range x with
             | Some literal => Some literal
             | None => among l'
             end
         end) elems
  | JObject members =>
      (fix among (l : list (string * json)) : option string :=
         match l with
         | [] => None
         | (_, x) :: l' =>
             match first_out_of_range x with
             | Some literal => Some literal
             | None => among l'
             end
         end) members
  | _ => None
  end.

Fixpoint store_members (members : list (string * json)) (m : gomap) : gomap :=
  match members with
  | [] => m
  | (key, v) :: rest => store_members rest (map_store m key v)
  end.

(** [json.Unmarshal(body, &data)] for a nil [data] of type
    [map[string]interface{}]. *)
Definition Unmarshal_map (body : document) : gomap * option error :=
  match body with
  | Malformed => ([], Some SyntaxError)
  | Wellformed JNull => ([], None)
  | Wellformed (JObject members) =>
      (store_members members [],
       match first_out_of_range (JObject members) with
       | Some literal => Some (UnmarshalTypeError ("number " ++ literal) "float64")
       | None => None
       end)
  | Wellformed v =>
      ([], Some (UnmarshalTypeError (kind_name v) "map[string]interface {}"))
  end.

(** ** The environment

    What lies outside the package: the pure library functions whose code
    is not modelled, and the network.  The network answers may change
    from one operation to the next, so they depend on the number of
    network operations already performed. *)

(** A [net.IP]: the bytes of the address. *)
Definition net_IP : Type := list ascii.

Record Response : Type := mkResponse {
  StatusCode : nat;
  (** what [io.ReadAll(resp.Body)] returns: an error or the bytes read *)
  Body : error + document
}.

Record Library : Type := mkLibrary {
  (** [url.Parse(s)] followed by [Hostname()]; [None] when parsing fails *)
  url_Hostname : string -> option string;
  (** [ip.String()] *)
  IP_String : net_IP -> string;
  (** [fmt.Sscanf(s, "%f", &x)] on an input that is not a plain decimal
      literal (blanks, exponent, hexadecimal, infinity, NaN, trailing
      text): the value stored, [None] when the scan fails *)
  Sscanf_other : string -> option float64
}.

Record Network : Type := mkNetwork {
  (** [net.LookupIP(host)] *)
  net_LookupIP : nat -> string -> list net_IP * option error;
  (** [http.Get(url)]: a transport error or a response *)
  http_Get : nat -> string -> error + Response
}.

Inductive Event : Type :=
| EvLookupIP (host : string)
| EvGet (url : string).

(** Computations that perform network operations: a state monad over the
    trace of the operations performed so far, oldest first. *)
Definition M (A : Type) : Type := list Event -> A * list Event.

Definition ret {A : Type} (a : A) : M A := fun tr => (a, tr).

Definition bind {A B : Type} (m : M A) (k : A -> M B) : M B :=
  fun tr => let '(a, tr') := m tr in k a tr'.

Notation "x <- m ;; k" := (bind m (fun x => k))
  (at level 61, m at next level, right associativity).
Notation "' p <- m ;; k" := (bind m (fun x => match x with p => k end))
  (at level 61, p pattern, m at next level, right associativity).

(** [fmt.Sscanf(s, "%f", &x)]: the value stored in [x], if any. *)
Definition Sscanf_f (lib : Library) (s : string) : option float64 :=
  match decimal_literal s with
  | Some d => float64_of_decimal d
  | None => Sscanf_other lib s
  end.

(** The Go pair of a pointer and an error. *)
Definition result (A : Type) : Type := (option A * option error)%type.

Section Domaininfo.

Variable lib : Library.
Variable net : Network.

Definition LookupIP (host : string) : M (list net_IP * option error) :=
  fun tr => (net_LookupIP net (length tr) host, tr ++ [EvLookupIP host]).

Definition Get (url : string) : M (error + Response) :=
  fun tr => (http_Get net (length tr) url, tr ++ [EvGet url]).

Definition cleanDomainInput (input : string) : string :=
  let input :=
    if HasPrefix input "http://" || HasPrefix input "https://" then
      match url_Hostname lib input with
      | Some host => host
      | None => input
      end
    else input in
  let input := TrimPrefix input "www." in
  TrimSpace input.

Definition getIPAddress (domain : string) : M (string * option error) :=
  '(ips, err) <- LookupIP domain ;;
  match err, ips with
  | Some _, _ | None, [] => ret (EmptyString, err)
  | None, ip0 :: _ => ret (IP_String lib ip0, None)
  end.

Definition checkDNSResolution (domain : string) : M bool :=
  '(_, err) <- LookupIP domain ;;
  ret (match err with None => true | Some _ => false end).

(** The tail shared by [getIPAPILocation] and [getFreeGeoIPLocation]:
    read the body, decode it into a [LocationDetails], check that a city
    or a country is present. *)
Definition decode_location (r : error + Response) : result LocationDetails :=
  match r with
  | inl err => (None, Some err)
  | inr resp =>
      match Body resp with
      | inl err => (None, Some err)
      | inr body =>
          let '(location, err) :=
            Unmarshal_LocationDetails body LocationDetails_zero in
          match err with
          | Some e => (None, Some e)
          | None =>
              if String.eqb (City location) "" && String.eqb (Country location) ""
              then (None, Some (Errorf "no location data"))
              else (Some location, None)
          end
      end
  end.

Definition getIPAPILocation (ip : string) : M (result LocationDetails) :=
  r <- Get ("https://ipapi.co/" ++ ip ++ "/json/")%string ;;
  ret (decode_location r).

Definition getFreeGeoIPLocation (ip : string) : M (result LocationDetails) :=
  r <- Get ("https://freegeoip.app/json/" ++ ip)%string ;;
  ret (decode_location r).

(** The coordinates of [getIPInfoLocation]: the field [loc] split at the
    commas and, when there are two pieces, each scanned as a float; a
    failed scan leaves the field as it is. *)
Definition scan_into (s : string) (old : float64) : float64 :=
  match Sscanf_f lib s with Some f => f | None => old end.

Definition store_coordinates (data : gomap) (location : LocationDetails)
  : LocationDetails :=
  let '(loc, ok) := assert_string (map_index data "loc") in
  if ok then
    let coords := Split loc "," in
    match coords with
    | [c0; c1] =>
        let location := set_Latitude location (scan_into c0 (Latitude location)) in
        set_Longitude location (scan_into c1 (Longitude location))
    | _ => location
    end
  else location.

Definition decode_ipinfo (r : error + Response) : result LocationDetails :=
  match r with
  | inl err => (None, Some err)
  | inr resp =>
      match Body resp with
      | inl err => (None, Some err)
      | inr body =>
          let '(data, err) := Unmarshal_map body in
          match err with
          | Some e => (None, Some e)
          | None =>
              let location := store_coordinates data LocationDetails_zero in
              let location :=
                set_City location (fst (assert_string (map_index data "city"))) in
              let location :=
                set_Region location (fst (assert_string (map_index data "region"))) in
              let location :=
                set_Country location (fst (assert_string (map_index data "country"))) in
              if String.eqb (City location) "" && String.eqb (Country location) ""
              then (None, Some (Errorf "no location data"))
              else (Some location, None)
          end
      end
  end.

Definition getIPInfoLocation (ip : string) : M (result LocationDetails) :=
  r <- Get ("https://ipinfo.io/" ++ ip ++ "/json")%string ;;
  ret (decode_ipinfo r).

Definition Provider : Type := string -> M (result LocationDetails).

Definition locationProviders : list Provider :=
  [getIPAPILocation; getIPInfoLocation; getFreeGeoIPLocation].

(** The [for ... range] loop of [getIPLocation] over a slice of
    providers. *)
Fixpoint range_providers (providers : list Provider) (ip : string)
  : M (result LocationDetails) :=
  match providers with
  | [] => ret (None, Some (Errorf "could not fetch location from any provider"))
  | provider :: rest =>
      '(location, err) <- provider ip ;;
      match err, location with
      | None, Some l => ret (Some l, None)
      | _, _ => range_providers rest ip
      end
  end.

Definition getIPLocation (ip : string) : M (result LocationDetails) :=
  range_providers locationProviders ip.

Definition ValidateDomain (input : string) : M (result DomainInfo) :=
  let cleanDomain := cleanDomainInput input in
  if negb (isValidDomainFormat cleanDomain) then
    ret (None, Some (Errorf "invalid domain format"))
  else
    resolves <- checkDNSResolution cleanDomain ;;
    if negb resolves then
      ret (None, Some (Errorf "cannot resolve domain"))
    else
      '(ipAddress, err) <- getIPAddress cleanDomain ;;
      match err with
      | Some e => ret (None, Some (Errorf_v "unable to resolve IP: " e))
      | None =>
          '(location, err) <- getIPLocation ipAddress ;;
          match err with
          | Some e => ret (None, Some (Errorf_v "unable to fetch location: " e))
          | None =>
              ret (Some (mkDomainInfo input cleanDomain ipAddress location), None)
          end
      end.

End Domaininfo.

(** ** Shapes of domain names *)

(** The text of a Go string. *)
Definition text (s : string) : list ascii := list_ascii_of_string s.

(** A label of 1 to 63 letters, digits and hyphens that neither starts nor
    ends with a hyphen. *)
Definition label_ok (l : list ascii) : bool :=
  (1 <=? length l) && (length l <=? 63) && forallb is_alnum_hyphen l
  && negb (Ascii.eqb (hd "-"%char l) "-") && negb (Ascii.eqb (last l "-"%char) "-").

(** A label of at least two letters. *)
Definition alpha_label (l : list ascii) : bool :=
  (2 <=? length l) && forallb is_alpha l.

(** Each label preceded by a dot. *)
Definition dotted (labels : list (list ascii)) : list ascii :=
  concat (map (cons "."%char) labels).

(** What the pattern of [isValidDomainFormat] accepts: one label followed
    by one or more dotted labels of letters. *)
Definition domain_shape (s : list ascii) : Prop :=
  exists first rest,
    rest <> [] /\ s = first ++ dotted rest
    /\ label_ok first = true /\ forallb alpha_label rest = true.

(** The grammar in the words of the specification: one or more labels
    (letters, digits, hyphens; 1 to 63 characters; no hyphen at either
    end), separated by dots, ending in a top-level label of at least two
    letters. *)
Definition spec_domain_grammar (s : list ascii) : Prop :=
  exists labels tld,
    labels <> [] /\ s = concat (map (fun l => l ++ ["."%char]) labels) ++ tld
    /\ forallb label_ok labels = true /\ alpha_label tld = true.

(** ** White space *)

(** A non-empty run of white-space runes. *)
Inductive space_run : string -> Prop :=
| space_one (e : string) :
    In e space_encodings -> space_run e
| space_more (e s : string) :
    In e space_encodings -> space_run s -> space_run (e ++ s)%string.

Definition has_byte (c : ascii) (s : string) : bool :=
  existsb (Ascii.eqb c) (list_ascii_of_string s).

(** ** Outcomes of the orchestrator *)

(** A provider result that the orchestrator accepts: a nil error next to a
    non-nil location. *)
Definition success (r : result LocationDetails) : bool :=
  match r with
  | (Some _, None) => true
  | _ => false
  end.

(** The error of [getIPLocation] when no provider succeeded
    ([AllProvidersFailedError]). *)
Definition AllProvidersFailed : error :=
  Errorf "could not fetch location from any provider".

(** The error of [ValidateDomain] when the location could not be fetched
    ([LocationUnavailable]). *)
Definition LocationUnavailable : error :=
  Errorf_v "unable to fetch location: " AllProvidersFailed.

(** The endpoints of the three providers, in the order of
    [locationProviders]. *)
Definition provider_urls (ip : string) : list string :=
  [ ("https://ipapi.co/" ++ ip ++ "/json/")%string;
    ("https://ipinfo.io/" ++ ip ++ "/json")%string;
    ("https://freegeoip.app/json/" ++ ip)%string ].

(** The three adapters fail in the run of [getIPLocation] on [ip] after
    the trace [tr]: each one at the moment the loop invokes it. *)
Definition providers_fail (lib : Library) (net : Network) (ip : string)
    (tr : list Event) : bool :=
  let r1 := getIPAPILocation net ip tr in
  let r2 := getIPInfoLocation lib net ip (snd r1) in
  let r3 := getFreeGeoIPLocation net ip (snd r2) in
  negb (success (fst r1)) && negb (success (fst r2)) && negb (success (fst r3)).

(** *** Example environments *)

Definition example_lib : Library :=
  mkLibrary (fun _ => None) (fun _ => "203.0.113.7") (fun _ => None).

Definition answer (status : nat) (v : json) : error + Response :=
  inr (mkResponse status (inr (Wellformed v))).

(** The first two providers answer without city and country, the third
    one knows Paris. *)
Definition paris_third : Network :=
  mkNetwork
    (fun _ _ => ([["203"; "000"; "113"; "007"]%char], None))
    (fun _ url =>
       if String.eqb url "https://freegeoip.app/json/203.0.113.7"
       then answer 200 (JObject [("city", JString "Paris");
                                 ("country_name", JString "France")])
       else answer 200 (JObject [("ip", JString "203.0.113.7")])).

(** The first provider knows Paris. *)
Definition paris_first : Network :=
  mkNetwork
    (fun _ _ => ([["203"; "000"; "113"; "007"]%char], None))
    (fun _ url =>
       answer 200 (JObject [("city", JString "Paris");
                            ("country_name", JString "France")])).

(** The providers cannot be reached for the address 203.0.113.7 and know
    Paris for every other address. *)
Definition picky : Network :=
  mkNetwork
    (fun _ _ => ([["203"; "000"; "113"; "007"]%char], None))
    (fun _ url =>
       if existsb (String.eqb url) (provider_urls "203.0.113.7")
       then inl (LibError "dial tcp: connection refused")
       else answer 200 (JObject [("city", JString "Paris");
                                 ("country_name", JString "France")])).

(** No provider can be reached. *)
Definition unreachable : Network :=
  mkNetwork
    (fun _ _ => ([["203"; "000"; "113"; "007"]%char], None))
    (fun _ _ => inl (LibError "dial tcp: connection refused")).

Definition Paris : LocationDetails :=
  mkLocationDetails "" "Paris" "" "France" float64_zero float64_zero.

(** ** Outcomes of the adapters *)

(** The error of [json.Unmarshal] on a body, for the target of the
    adapters of [ipapi.co] and [freegeoip.app] and for the target of the
    adapter of [ipinfo.io]. *)
Definition struct_error (body : document) : option error :=
  snd (Unmarshal_LocationDetails body LocationDetails_zero).

Definition map_error (body : document) : option error :=
  snd (Unmarshal_map body).

(** How an adapter [p] with endpoint [url] reports the failures of its
    request: a transport error, an error while reading the body and an
    error of [json.Unmarshal] on the body, given by [unmarshal], each come
    back as the error, with a nil location. *)
Definition reports_failures (net : Network) (p : Provider)
    (url : string -> string) (unmarshal : document -> option error) : Prop :=
  forall ip tr,
    (forall err, http_Get net (length tr) (url ip) = inl err ->
       fst (p ip tr) = (None, Some err))
    /\ (forall status err,
          http_Get net (length tr) (url ip) = inr (mkResponse status (inl err)) ->
          fst (p ip tr) = (None, Some err))
    /\ (forall status body err,
          http_Get net (length tr) (url ip) = inr (mkResponse status (inr body)) ->
          unmarshal body = Some err ->
          fst (p ip tr) = (None, Some err)).

(** The status code of the response plays no part in the result of [p]. *)
Definition ignores_status (p : Network -> Provider) : Prop :=
  forall lookup get status ip tr,
    fst (p (mkNetwork lookup get) ip tr)
    = fst (p (mkNetwork lookup
                (fun t u => match get t u with
                            | inl err => inl err
                            | inr resp => inr (mkResponse status (Body resp))
                            end)) ip tr).

(** Every provider answers 404 Not Found with a body that names Paris. *)
Definition not_found_paris : Network :=
  mkNetwork
    (fun _ _ => ([["203"; "000"; "113"; "007"]%char], None))
    (fun _ url =>
       answer 404 (JObject [("city", JString "Paris");
                            ("country_name", JString "France")])).

(** The lookups succeed with an empty result set; the providers know
    Paris. *)
Definition empty_lookup_paris : Network :=
  mkNetwork (fun _ _ => ([], None)) (http_Get paris_first).

(** The lookups succeed with an empty result set; no provider can be
    reached. *)
Definition empty_lookup_unreachable : Network :=
  mkNetwork (fun _ _ => ([], None)) (http_Get unreachable).

(** The lookups fail. *)
Definition no_such_host : Network :=
  mkNetwork (fun _ _ => ([], Some (LibError "no such host")))
            (http_Get paris_first).

(** [ipinfo.io] answers with a city and the coordinates in [loc]. *)
Definition paris_coordinates : Network :=
  mkNetwork
    (fun _ _ => ([["203"; "000"; "113"; "007"]%char], None))
    (fun _ url =>
       if String.eqb url "https://ipinfo.io/203.0.113.7/json"
       then answer 200 (JObject [("city", JString "Paris");
                                 ("country", JString "FR");
                                 ("loc", JString "48.85,2.35")])
       else inl (LibError "dial tcp: connection refused")).

(** The binary64 numbers written [48.85] and [2.35]:
    [0x40486CCCCCCCCCCD] and [0x4002CCCCCCCCCCCD]. *)
Definition binary64_48_85 : float64 := S754_finite false 6875026306157773 (-47).
Definition binary64_2_35 : float64 := S754_finite false 5291729562160333 (-51).


(** ** Further notions *)

(** The bytes of a name that the pattern accepts: letters, digits, hyphen
    and dot. *)
Definition domain_byte (c : ascii) : bool :=
  is_alnum_hyphen c || Ascii.eqb c ".".

(** [s] starts with a white-space rune; [s] ends with one. *)
Definition starts_with_space (s : string) : bool :=
  match cut_any space_encodings s with Some _ => true | None => false end.

Definition ends_with_space (s : string) : bool :=
  match cut_any (map srev space_encodings) (srev s) with
  | Some _ => true
  | None => false
  end.

(** Every class of [r] takes the same value on [c] and on [f c]. *)
Fixpoint class_invariant (f : ascii -> ascii) (r : regexp) : Prop :=
  match r with
  | Void | Empty => True
  | Class cl => forall c, cl (f c) = cl c
  | Cat r1 r2 | Alt r1 r2 => class_invariant f r1 /\ class_invariant f r2
  | Rep r1 _ _ => class_invariant f r1
  end.

(** Upper case, the mirror of [to_lower]. *)
Definition to_upper (c : ascii) : ascii :=
  if between "a" "z" c then ascii_of_N (N_of_ascii c - 32) else c.

Fixpoint upper (s : string) : string :=
  match s with
  | EmptyString => EmptyString
  | String c s' => String (to_upper c) (upper s')
  end.

(** The number of occurrences of the byte [c] in [s]. *)
Fixpoint count_byte (c : ascii) (s : string) : nat :=
  match s with
  | EmptyString => 0
  | String a s' => (if Ascii.eqb a c then 1 else 0) + count_byte c s'
  end.

(** The first lookup succeeds, the later ones time out. *)
Definition flaky_lookup : Network :=
  mkNetwork
    (fun t _ =>
       if t =? 0 then ([["203"; "000"; "113"; "007"]%char], None)
       else ([], Some (LibError "i/o timeout")))
    (http_Get paris_first).

(** The first lookup finds one address, the later ones find another one
    first. *)
Definition moving_lookup : Network :=
  mkNetwork
    (fun t _ =>
       if t =? 0 then ([["198"; "051"; "100"; "001"]%char], None)
       else ([["203"; "000"; "113"; "007"]%char;
              ["198"; "051"; "100"; "001"]%char], None))
    (http_Get paris_first).

(** A library that tells the two addresses of the examples apart. *)
Definition two_address_lib : Library :=
  mkLibrary (fun _ => None)
    (fun ip => match ip with
               | "198"%char :: _ => "198.51.100.1"
               | _ => "203.0.113.7"
               end)
    (fun _ => None).

(** What a record says beyond the raw input. *)
Definition resolved (info : DomainInfo)
  : string * string * option LocationDetails :=
  (CleanDomain info, IPAddress info, Location info).

(** The fields of a location other than the coordinates. *)
Definition place (l : LocationDetails) : string * string * string * string :=
  (IP l, City l, Region l, Country l).

(** The tags of the string fields and of the float fields of
    [LocationDetails]. *)
Definition string_tag (key : string) : bool :=
  EqualFold key "ip" || EqualFold key "city" || EqualFold key "region"
  || EqualFold key "country_name".

Definition float_tag (key : string) : bool :=
  EqualFold key "latitude" || EqualFold key "longitude".

(** A member whose key names a field and whose value is neither null nor
    of the type of that field. *)
Definition wrong_type (kv : string * json) : bool :=
  let '(key, v) := kv in
  (string_tag key
   && match v with JString _ | JNull => false | _ => true end)
  || (float_tag key
      && match v with JNumber (inl _) | JNull => false | _ => true end).

(** A member whose key names neither the city nor the country. *)
Definition not_city_nor_country (kv : string * json) : bool :=
  negb (EqualFold (fst kv) "city") && negb (EqualFold (fst kv) "country_name").

(** The value a string field ends with after the member [kv]: the string
    of the member if its key names the field, else the value before; so
    for a float field. *)
Definition pick_string (tag : string) (acc : string) (kv : string * json)
  : string :=
  if EqualFold (fst kv) tag
  then match snd kv with JString s => s | _ => acc end
  else acc.

Definition pick_float (tag : string) (acc : float64) (kv : string * json)
  : float64 :=
  if EqualFold (fst kv) tag
  then match snd kv with JNumber (inl f) => f | _ => acc end
  else acc.

(** Each field with the value of the last member named after it that is
    not null. *)
Definition fields_of (members : list (string * json)) (l : LocationDetails)
  : LocationDetails :=
  mkLocationDetails
    (fold_left (pick_string "ip") members (IP l))
    (fold_left (pick_string "city") members (City l))
    (fold_left (pick_string "region") members (Region l))
    (fold_left (pick_string "country_name") members (Country l))
    (fold_left (pick_float "latitude") members (Latitude l))
    (fold_left (pick_float "longitude") members (Longitude l)).

(** A member whose key is, byte for byte, neither [city] nor [country]. *)
Definition not_city_nor_country_exact (kv : string * json) : bool :=
  negb (String.eqb (fst kv) "city") && negb (String.eqb (fst kv) "country").

(** Every provider answers 200 OK with the JSON value [v]. *)
Definition answering (v : json) : Network :=
  mkNetwork
    (fun _ _ => ([["203"; "000"; "113"; "007"]%char], None))
    (fun _ _ => answer 200 v).

(** The request of an adapter to [url], made after the trace [tr], is
    answered by the JSON object of the given members. *)
Definition answered (net : Network) (tr : list Event) (url : string)
    (status : nat) (members : list (string * json)) : Prop :=
  http_Get net (length tr) url = answer status (JObject members).

(** * Properties *)

(** ** Regular expressions *)

Module RegexpFacts.

Lemma pow_nil (L : list ascii -> Prop) (k : nat) : L [] -> pow L k [].
Proof.
  intros HL. induction k as [|k IH]; simpl.
  - reflexivity.
  - exists [], []. auto.
Qed.

Lemma pow_nil_inv (L : list ascii -> Prop) (k : nat) :
  pow L (S k) [] -> L [].
Proof.
  simpl. intros (s1 & s2 & E & H1 & _).
  symmetry in E. apply app_eq_nil in E. destruct E as [-> _]. exact H1.
Qed.

(** A non-empty word of [L^k] starts with a non-empty word of [L]; the
    empty factors before it can be moved behind it. *)
Lemma pow_cons (L : list ascii -> Prop) (k : nat) (c : ascii) (s : list ascii) :
  pow L k (c :: s) ->
  exists s1 s2, s = s1 ++ s2 /\ L (c :: s1) /\ pow L (pred k) s2.
Proof.
  induction k as [|k IH]; simpl.
  - discriminate.
  - intros (t1 & t2 & E & H1 & H2). destruct t1 as [|a t1]; simpl in E.
    + subst t2. destruct (IH H2) as (s1 & s2 & E' & H1' & H2').
      exists s1, s2. repeat split; auto.
      destruct k as [|k]; simpl in *.
      * discriminate.
      * exists [], s2. auto.
    + injection E as <- ->. exists t1, t2. auto.
Qed.

Lemma within_withinb (hi : option nat) (k : nat) :
  withinb hi k = true <-> within hi k.
Proof.
  destruct hi as [h|]; simpl.
  - apply Nat.leb_le.
  - tauto.
Qed.

(** One step of a bounded repetition: a first factor that starts with
    [c], then a repetition with both bounds decremented. *)
Lemma rep_step (L : list ascii -> Prop) (lo : nat) (hi : option nat)
    (c : ascii) (s : list ascii) :
  (exists s1 s2, s = s1 ++ s2 /\ L (c :: s1)
     /\ exists k, pred lo <= k /\ within hi k /\ pow L k s2)
  <-> (exists k, lo <= k /\ within (option_map S hi) k /\ pow L k (c :: s)).
Proof.
  split.
  - intros (s1 & s2 & -> & H1 & k & Hlo & Hhi & Hp).
    exists (S k). split; [lia|]. split.
    + destruct hi; simpl in *; [lia | exact I].
    + simpl. exists (c :: s1), s2. auto.
  - intros (k & Hlo & Hhi & Hp).
    destruct (pow_cons _ _ _ _ Hp) as (s1 & s2 & E & H1 & H2).
    exists s1, s2. repeat split; auto.
    exists (pred k). split; [lia|]. split; [|exact H2].
    destruct k as [|k]; [simpl in Hp; discriminate|].
    destruct hi; simpl in *; [lia | exact I].
Qed.

Lemma nullable_correct (r : regexp) : nullable r = true <-> lang r [].
Proof.
  induction r as [| |cl|r1 IH1 r2 IH2|r1 IH1 r2 IH2|r1 IH1 lo hi]; simpl.
  - split; [discriminate | tauto].
  - tauto.
  - split; [discriminate | intros (c & E & _); discriminate].
  - rewrite andb_true_iff, IH1, IH2. split.
    + intros [H1 H2]. exists [], []. auto.
    + intros (s1 & s2 & E & H1 & H2).
      symmetry in E. apply app_eq_nil in E. destruct E; subst. auto.
  - rewrite orb_true_iff, IH1, IH2. tauto.
  - rewrite andb_true_iff, orb_true_iff, within_withinb, Nat.eqb_eq, IH1. split.
    + intros [Hw [-> | HL]].
      * exists 0. simpl. auto.
      * exists lo. split; [lia|]. split; [exact Hw|]. apply pow_nil, HL.
    + intros (k & Hlo & Hhi & Hp). split.
      * destruct hi as [h|]; simpl in *; [lia | exact I].
      * destruct lo as [|lo]; [now left | right].
        destruct k as [|k]; [lia|]. eapply pow_nil_inv, Hp.
Qed.

Lemma deriv_correct (c : ascii) (r : regexp) :
  forall s, lang (deriv c r) s <-> lang r (c :: s).
Proof.
  induction r as [| |cl|r1 IH1 r2 IH2|r1 IH1 r2 IH2|r1 IH1 lo hi]; intros s; simpl.
  - tauto.
  - split; [tauto | discriminate].
  - destruct (cl c) eqn:Hc; simpl; split.
    + intros ->. eauto.
    + intros (c' & E & _). now injection E.
    + tauto.
    + intros (c' & E & H). injection E as <- _. congruence.
  - assert (Hcat : lang (Cat (deriv c r1) r2) s <->
                   exists s1 s2, c :: s = (c :: s1) ++ s2
                                 /\ lang r1 (c :: s1) /\ lang r2 s2).
    { simpl. split.
      - intros (s1 & s2 & -> & H1 & H2). exists s1, s2.
        rewrite <- IH1. auto.
      - intros (s1 & s2 & E & H1 & H2). injection E as ->. exists s1, s2.
        rewrite IH1. auto. }
    destruct (nullable r1) eqn:Hn.
    + change (lang (Cat (deriv c r1) r2) s \/ lang (deriv c r2) s <->
              exists s1 s2, c :: s = s1 ++ s2 /\ lang r1 s1 /\ lang r2 s2).
      rewrite Hcat, IH2. apply nullable_correct in Hn. split.
      * intros [(s1 & s2 & E & H1 & H2) | H2].
        -- exists (c :: s1), s2. auto.
        -- exists [], (c :: s). auto.
      * intros (s1 & s2 & E & H1 & H2). destruct s1 as [|a s1]; simpl in E.
        -- right. now subst s2.
        -- left. injection E as <- ->. exists s1, s2. auto.
    + rewrite Hcat. split.
      * intros (s1 & s2 & E & H1 & H2). exists (c :: s1), s2. auto.
      * intros (s1 & s2 & E & H1 & H2). destruct s1 as [|a s1]; simpl in E.
        -- apply nullable_correct in H1. congruence.
        -- injection E as <- ->. exists s1, s2. auto.
  - rewrite IH1, IH2. tauto.
  - destruct hi as [[|h]|].
    + simpl. split; [tauto|]. intros (k & _ & Hk & Hp).
      assert (k = 0) as -> by lia. discriminate.
    + change (lang (Cat (deriv c r1) (Rep r1 (pred lo) (Some h))) s <->
              exists k, lo <= k /\ within (option_map S (Some h)) k
                        /\ pow (lang r1) k (c :: s)).
      rewrite <- rep_step. simpl. split.
      * intros (s1 & s2 & E & H1 & H2). exists s1, s2. rewrite <- IH1. auto.
      * intros (s1 & s2 & E & H1 & H2). exists s1, s2. rewrite IH1. auto.
    + change (lang (Cat (deriv c r1) (Rep r1 (pred lo) None)) s <->
              exists k, lo <= k /\ within (option_map S None) k
                        /\ pow (lang r1) k (c :: s)).
      rewrite <- rep_step. simpl. split.
      * intros (s1 & s2 & E & H1 & H2). exists s1, s2. rewrite <- IH1. auto.
      * intros (s1 & s2 & E & H1 & H2). exists s1, s2. rewrite IH1. auto.
Qed.

Theorem matches_correct (r : regexp) (s : list ascii) :
  matches r s = true <-> lang r s.
Proof.
  revert r. induction s as [|c s IH]; intros r; simpl.
  - apply nullable_correct.
  - rewrite IH. apply deriv_correct.
Qed.

End RegexpFacts.

(** ** The pattern of [isValidDomainFormat] *)

Section DomainPattern.

Import RegexpFacts.

Lemma pow_class (cl : ascii -> bool) (k : nat) (s : list ascii) :
  pow (lang (Class cl)) k s <-> length s = k /\ forallb cl s = true.
Proof.
  revert s. induction k as [|k IH]; intros s; simpl.
  - split.
    + intros ->. auto.
    + intros [E _]. now apply length_zero_iff_nil.
  - split.
    + intros (s1 & s2 & -> & (c & -> & Hc) & Hp). apply IH in Hp.
      destruct Hp as [<- Hall]. simpl. rewrite Hc, Hall. auto.
    + destruct s as [|c s]; simpl; [intros [E _]; discriminate|].
      rewrite andb_true_iff. intros [E [Hc Hall]].
      exists [c], s. repeat split; eauto.
      apply IH. split; [lia | exact Hall].
Qed.

Lemma lang_rep_class (cl : ascii -> bool) (lo : nat) (hi : option nat)
    (s : list ascii) :
  lang (Rep (Class cl) lo hi) s <->
  lo <= length s /\ within hi (length s) /\ forallb cl s = true.
Proof.
  change (lang (Rep (Class cl) lo hi) s)
    with (exists k, lo <= k /\ within hi k /\ pow (lang (Class cl)) k s).
  split.
  - intros (k & Hlo & Hhi & Hp). apply pow_class in Hp.
    destruct Hp as [<- Hall]. auto.
  - intros (Hlo & Hhi & Hall). exists (length s).
    rewrite pow_class. auto.
Qed.

Lemma lang_opt (r : regexp) (s : list ascii) :
  lang (Opt r) s <-> s = [] \/ lang r s.
Proof.
  unfold Opt.
  change (lang (Rep r 0 (Some 1)) s)
    with (exists k, 0 <= k /\ k <= 1 /\ pow (lang r) k s).
  split.
  - intros (k & _ & Hk & Hp).
    destruct k as [|[|k]]; [now left | right | lia].
    simpl in Hp. destruct Hp as (s1 & s2 & -> & H1 & ->).
    now rewrite app_nil_r.
  - intros [-> | H].
    + exists 0. simpl. auto.
    + exists 1. simpl. repeat split; auto.
      exists s, []. now rewrite app_nil_r.
Qed.

Lemma lang_plus (r : regexp) (s : list ascii) :
  lang (Plus r) s <-> exists k, 1 <= k /\ pow (lang r) k s.
Proof.
  unfold Plus.
  change (lang (Rep r 1 None) s)
    with (exists k, 1 <= k /\ True /\ pow (lang r) k s).
  split; intros (k & H1 & H2); exists k; tauto.
Qed.

Lemma lang_dot_label (s : list ascii) :
  lang (Cat (Lit ".") (Rep (Class is_alpha) 2 None)) s <->
  exists l, s = "."%char :: l /\ alpha_label l = true.
Proof.
  change (lang (Cat (Lit ".") (Rep (Class is_alpha) 2 None)) s)
    with (exists s1 s2, s = s1 ++ s2
            /\ (exists c, s1 = [c] /\ Ascii.eqb "." c = true)
            /\ lang (Rep (Class is_alpha) 2 None) s2).
  unfold alpha_label. split.
  - intros (s1 & s2 & -> & (c & -> & Hc) & H2).
    apply Ascii.eqb_eq in Hc. subst c.
    apply lang_rep_class in H2. destruct H2 as (Hlen & _ & Hall).
    exists s2. split; [reflexivity|].
    rewrite Hall, andb_true_r. now apply Nat.leb_le.
  - intros (l & -> & H). apply andb_true_iff in H. destruct H as [Hlen Hall].
    exists ["."%char], l. split; [reflexivity|]. split.
    + exists "."%char. auto.
    + apply lang_rep_class. simpl. apply Nat.leb_le in Hlen. auto.
Qed.

Lemma pow_dot_labels (k : nat) (s : list ascii) :
  pow (lang (Cat (Lit ".") (Rep (Class is_alpha) 2 None))) k s <->
  exists rest, length rest = k /\ s = dotted rest
               /\ forallb alpha_label rest = true.
Proof.
  revert s. induction k as [|k IH]; intros s.
  - simpl. split.
    + intros ->. exists []. auto.
    + intros (rest & E & -> & _). apply length_zero_iff_nil in E. now subst.
  - change (pow (lang (Cat (Lit ".") (Rep (Class is_alpha) 2 None))) (S k) s)
      with (exists s1 s2, s = s1 ++ s2
              /\ lang (Cat (Lit ".") (Rep (Class is_alpha) 2 None)) s1
              /\ pow (lang (Cat (Lit ".") (Rep (Class is_alpha) 2 None))) k s2).
    split.
    + intros (s1 & s2 & -> & H1 & H2).
      apply lang_dot_label in H1. destruct H1 as (l & -> & Hl).
      apply IH in H2. destruct H2 as (rest & <- & -> & Hrest).
      exists (l :: rest). simpl. rewrite Hl, Hrest. auto.
    + intros (rest & E & -> & Hall). destruct rest as [|l rest]; [discriminate|].
      simpl in *. apply andb_true_iff in Hall. destruct Hall as [Hl Hrest].
      exists ("."%char :: l), (dotted rest). split; [reflexivity|]. split.
      * apply lang_dot_label. eauto.
      * apply IH. exists rest. repeat split; auto; lia.
Qed.

Lemma alnum_not_hyphen (c : ascii) :
  is_alnum c = true -> Ascii.eqb c "-" = false.
Proof.
  intros H. destruct (Ascii.eqb_spec c "-") as [->|]; [|reflexivity].
  vm_compute in H. discriminate.
Qed.

Lemma alnum_hyphen_alnum (c : ascii) :
  is_alnum_hyphen c = true -> Ascii.eqb c "-" = false -> is_alnum c = true.
Proof.
  unfold is_alnum_hyphen. intros H E. rewrite E, orb_false_r in H. exact H.
Qed.

Lemma alnum_alnum_hyphen (c : ascii) :
  is_alnum c = true -> is_alnum_hyphen c = true.
Proof. unfold is_alnum_hyphen. intros ->. reflexivity. Qed.

(** The first label as the pattern spells it: a letter or digit, then
    optionally up to 61 letters, digits or hyphens and one more letter or
    digit. *)
Lemma lang_first_label (s : list ascii) :
  lang (Cat (Class is_alnum)
          (Opt (Cat (Rep (Class is_alnum_hyphen) 0 (Some 61)) (Class is_alnum)))) s
  <-> label_ok s = true.
Proof.
  change (lang (Cat (Class is_alnum)
          (Opt (Cat (Rep (Class is_alnum_hyphen) 0 (Some 61)) (Class is_alnum)))) s)
    with (exists s1 s2, s = s1 ++ s2
            /\ (exists c, s1 = [c] /\ is_alnum c = true)
            /\ lang (Opt (Cat (Rep (Class is_alnum_hyphen) 0 (Some 61))
                              (Class is_alnum))) s2).
  unfold label_ok. split.
  - intros (s1 & s2 & -> & (c & -> & Hc) & H2). apply lang_opt in H2.
    destruct H2 as [-> | (body & t & -> & Hb & (c1 & -> & Hc1))].
    + simpl. rewrite (alnum_alnum_hyphen _ Hc), (alnum_not_hyphen _ Hc).
      reflexivity.
    + apply lang_rep_class in Hb. destruct Hb as (_ & Hlen & Hall).
      simpl in Hlen.
      change ([c] ++ body ++ [c1]) with (c :: body ++ [c1]).
      rewrite app_comm_cons, last_last. simpl hd.
      rewrite (alnum_not_hyphen _ Hc), (alnum_not_hyphen _ Hc1).
      rewrite forallb_app. simpl forallb.
      rewrite (alnum_alnum_hyphen _ Hc), (alnum_alnum_hyphen _ Hc1), Hall.
      rewrite length_app. simpl length.
      replace (S (length body) + 1 <=? 63) with true
        by (symmetry; apply Nat.leb_le; lia).
      reflexivity.
  - intros H. repeat rewrite andb_true_iff in H.
    destruct H as [[[[Hlo Hhi] Hall] Hhd] Hlast].
    apply Nat.leb_le in Hlo, Hhi. apply negb_true_iff in Hhd, Hlast.
    destruct s as [|c mid]; [simpl in Hlo; lia|].
    simpl in Hall, Hhd. apply andb_true_iff in Hall. destruct Hall as [Hc Hmid].
    exists [c], mid. split; [reflexivity|]. split.
    + exists c. split; [reflexivity|]. now apply alnum_hyphen_alnum.
    + apply lang_opt. destruct mid as [|a mid']; [now left | right].
      destruct (exists_last (l := a :: mid')) as (body & c1 & E); [discriminate|].
      rewrite E in *. rewrite app_comm_cons, last_last in Hlast.
      rewrite forallb_app in Hmid. apply andb_true_iff in Hmid.
      destruct Hmid as [Hbody Hc1]. simpl in Hc1. rewrite andb_true_r in Hc1.
      simpl in Hhi. rewrite length_app in Hhi. simpl in Hhi.
      exists body, [c1]. split; [reflexivity|]. split.
      * apply lang_rep_class. simpl. repeat split; auto; lia.
      * exists c1. split; [reflexivity|]. now apply alnum_hyphen_alnum.
Qed.

Lemma lang_domainRegex (s : list ascii) :
  lang domainRegex s <-> domain_shape s.
Proof.
  unfold domain_shape.
  change (lang domainRegex s)
    with (exists s1 s2, s = s1 ++ s2
            /\ lang (Class is_alnum) s1
            /\ exists t1 t2, s2 = t1 ++ t2
                 /\ lang (Opt (Cat (Rep (Class is_alnum_hyphen) 0 (Some 61))
                                   (Class is_alnum))) t1
                 /\ lang (Plus (Cat (Lit ".") (Rep (Class is_alpha) 2 None))) t2).
  split.
  - intros (s1 & s2 & -> & H1 & t1 & t2 & -> & Ht1 & Ht2).
    apply lang_plus in Ht2. destruct Ht2 as (k & Hk & Hp).
    apply pow_dot_labels in Hp. destruct Hp as (rest & E & -> & Hrest).
    exists (s1 ++ t1), rest. split; [|split; [|split]].
    + intros ->. simpl in E. lia.
    + now rewrite app_assoc.
    + apply lang_first_label. exists s1, t1. auto.
    + exact Hrest.
  - intros (first & rest & Hne & -> & Hfirst & Hrest).
    apply lang_first_label in Hfirst.
    destruct Hfirst as (s1 & t1 & -> & H1 & Ht1).
    exists s1, (t1 ++ dotted rest). split; [now rewrite app_assoc|].
    split; [exact H1|]. exists t1, (dotted rest). split; [reflexivity|].
    split; [exact Ht1|]. apply lang_plus. exists (length rest). split.
    + destruct rest; [congruence | simpl; lia].
    + apply pow_dot_labels. exists rest. auto.
Qed.

End DomainPattern.

(** ** Strings *)

Section Strings.

Local Open Scope string_scope.

Lemma append_nil_r (s : string) : s ++ "" = s.
Proof. induction s as [|c s IH]; simpl; congruence. Qed.

Lemma append_assoc (a b c : string) : (a ++ b) ++ c = a ++ (b ++ c).
Proof. induction a as [|x a IH]; simpl; congruence. Qed.

Lemma length_append (a b : string) :
  String.length (a ++ b) = String.length a + String.length b.
Proof. induction a as [|x a IH]; simpl; congruence. Qed.

Lemma text_append (a b : string) :
  list_ascii_of_string (a ++ b)
  = (list_ascii_of_string a ++ list_ascii_of_string b)%list.
Proof. induction a as [|x a IH]; simpl; congruence. Qed.

Lemma string_of_app (a b : list ascii) :
  string_of_list_ascii (a ++ b)%list
  = string_of_list_ascii a ++ string_of_list_ascii b.
Proof. induction a as [|x a IH]; simpl; congruence. Qed.

Lemma srev_append (a b : string) : srev (a ++ b) = srev b ++ srev a.
Proof.
  unfold srev. now rewrite text_append, rev_app_distr, string_of_app.
Qed.

Lemma srev_involutive (s : string) : srev (srev s) = s.
Proof.
  unfold srev.
  now rewrite list_ascii_of_string_of_list_ascii, rev_involutive,
    string_of_list_ascii_of_string.
Qed.

Lemma CutPrefix_append (p s : string) : CutPrefix p (p ++ s) = Some s.
Proof.
  induction p as [|c p IH]; simpl; [reflexivity|].
  now rewrite Ascii.eqb_refl.
Qed.

Lemma CutPrefix_inv (p s r : string) :
  CutPrefix p s = Some r -> s = p ++ r.
Proof.
  revert s. induction p as [|c p IH]; intros s; simpl.
  - now intros [= ->].
  - destruct s as [|b s]; [discriminate|].
    destruct (Ascii.eqb_spec c b) as [->|]; [|discriminate].
    intros H. now rewrite (IH _ H).
Qed.

(** A prefix without dot of [x ++ "." ++ y] lies within [x]. *)
Lemma CutPrefix_before_dot (p x y r : string) :
  has_byte "." p = false ->
  CutPrefix p (x ++ String "." y) = Some r ->
  exists x', x = p ++ x' /\ r = x' ++ String "." y.
Proof.
  revert x. induction p as [|c p IH]; intros x Hp H.
  - cbn [CutPrefix] in H. injection H as <-. now exists x.
  - unfold has_byte in Hp. cbn [list_ascii_of_string existsb] in Hp.
    apply orb_false_iff in Hp. destruct Hp as [Hc Hp].
    destruct x as [|b x]; cbn [append CutPrefix] in H.
    + rewrite Ascii.eqb_sym, Hc in H. discriminate.
    + destruct (Ascii.eqb_spec c b) as [->|]; [|discriminate].
      destruct (IH x Hp H) as (x' & -> & ->). now exists x'.
Qed.

Lemma cut_any_before_dot (encs : list string) (x y r : string) :
  forallb (fun e => negb (has_byte "." e)) encs = true ->
  cut_any encs (x ++ String "." y) = Some r ->
  exists x', String.length x' <= String.length x /\ r = x' ++ String "." y.
Proof.
  induction encs as [|e encs IH]; simpl; [discriminate|].
  rewrite andb_true_iff, negb_true_iff. intros [He Hencs].
  destruct (CutPrefix e (x ++ String "." y)) as [r'|] eqn:E.
  - intros [= <-]. destruct (CutPrefix_before_dot _ _ _ He E) as (x' & -> & ->).
    exists x'. rewrite length_append. split; [lia | reflexivity].
  - now apply IH.
Qed.

(** Trimming never reaches past a dot. *)
Lemma trim_leading_before_dot (encs : list string) (fuel : nat) (x y : string) :
  forallb (fun e => negb (has_byte "." e)) encs = true ->
  exists x', trim_leading encs fuel (x ++ String "." y) = x' ++ String "." y.
Proof.
  intros Hencs. revert x. induction fuel as [|fuel IH]; intros x; simpl.
  - now exists x.
  - destruct (cut_any encs (x ++ String "." y)) as [r|] eqn:E.
    + destruct (cut_any_before_dot _ _ _ Hencs E) as (x' & _ & ->). apply IH.
    + now exists x.
Qed.

Lemma cut_any_shorter (encs : list string) (s r : string) :
  forallb (fun e => negb (String.eqb e "")) encs = true ->
  cut_any encs s = Some r -> String.length r < String.length s.
Proof.
  induction encs as [|e encs IH]; simpl; [discriminate|].
  rewrite andb_true_iff, negb_true_iff. intros [He Hencs].
  destruct (CutPrefix e s) as [r'|] eqn:E.
  - intros [= <-]. apply CutPrefix_inv in E. subst s.
    rewrite length_append. destruct e; [discriminate | simpl; lia].
  - now apply IH.
Qed.

(** More fuel than the length of the string changes nothing. *)
Lemma trim_leading_fuel (encs : list string) (n m : nat) (s : string) :
  forallb (fun e => negb (String.eqb e "")) encs = true ->
  String.length s <= n -> String.length s <= m ->
  trim_leading encs n s = trim_leading encs m s.
Proof.
  intros Hencs. revert m s. induction n as [|n IH]; intros m s Hn Hm.
  - destruct s; [|simpl in Hn; lia]. destruct m; simpl; [reflexivity|].
    destruct (cut_any encs "") as [r|] eqn:E; [|reflexivity].
    apply (cut_any_shorter _ _ Hencs) in E. simpl in E. lia.
  - destruct m as [|m].
    + destruct s; [|simpl in Hm; lia]. simpl.
      destruct (cut_any encs "") as [r|] eqn:E; [|reflexivity].
      apply (cut_any_shorter _ _ Hencs) in E. simpl in E. lia.
    + simpl. destruct (cut_any encs s) as [r|] eqn:E; [|reflexivity].
      apply (cut_any_shorter _ _ Hencs) in E. apply IH; lia.
Qed.

Lemma cut_any_space (e t : string) :
  In e space_encodings -> cut_any space_encodings (e ++ t) = Some t.
Proof.
  intros H. unfold space_encodings in H. simpl in H.
  repeat (destruct H as [<- | H]; [reflexivity|]). contradiction.
Qed.

Lemma space_encodings_nonempty :
  forallb (fun e => negb (String.eqb e "")) space_encodings = true.
Proof. reflexivity. Qed.

Lemma TrimLeftSpace_encoding (e t : string) :
  In e space_encodings -> TrimLeftSpace (e ++ t) = TrimLeftSpace t.
Proof.
  intros H. unfold TrimLeftSpace.
  assert (Hlen : String.length t < String.length (e ++ t)).
  { apply cut_any_shorter with (encs := space_encodings).
    - exact space_encodings_nonempty.
    - now apply cut_any_space. }
  destruct (String.length (e ++ t)) as [|n]; [lia|].
  cbn [trim_leading]. rewrite (cut_any_space _ H).
  apply trim_leading_fuel; [exact space_encodings_nonempty | lia | lia].
Qed.

Lemma TrimLeftSpace_run (sp t : string) :
  space_run sp -> TrimLeftSpace (sp ++ t) = TrimLeftSpace t.
Proof.
  induction 1 as [e H|e s H Hs IH].
  - now apply TrimLeftSpace_encoding.
  - rewrite append_assoc, TrimLeftSpace_encoding by exact H. exact IH.
Qed.

(** No white-space rune starts with the first byte of ["http://"],
    ["https://"] or ["www."]. *)
Lemma space_run_head (sp t : string) :
  space_run sp ->
  HasPrefix (sp ++ t) "http://" = false
  /\ HasPrefix (sp ++ t) "https://" = false
  /\ TrimPrefix (sp ++ t) "www." = sp ++ t.
Proof.
  assert (Hone : forall e u, In e space_encodings ->
            HasPrefix (e ++ u) "http://" = false
            /\ HasPrefix (e ++ u) "https://" = false
            /\ TrimPrefix (e ++ u) "www." = e ++ u).
  { intros e u H. unfold space_encodings in H. simpl in H.
    repeat (destruct H as [<- | H]; [repeat split|]). contradiction. }
  intros [e H|e s H _].
  - now apply Hone.
  - rewrite append_assoc. now apply Hone.
Qed.

Lemma srev_cons (c : ascii) (s : string) :
  srev (String c s) = srev s ++ String c "".
Proof. change (String c s) with (String c "" ++ s). now rewrite srev_append. Qed.

(** Trimming on the right keeps everything up to the last dot. *)
Lemma TrimRightSpace_dot (a rest : string) :
  exists t, TrimRightSpace (a ++ String "." rest) = a ++ String "." t.
Proof.
  unfold TrimRightSpace. generalize (String.length (a ++ String "." rest)).
  intros fuel. rewrite srev_append, srev_cons, append_assoc.
  cbn [append].
  destruct (trim_leading_before_dot (map srev space_encodings) fuel
              (srev rest) (srev a)) as (x' & ->); [reflexivity|].
  exists (srev x').
  rewrite srev_append, srev_cons, srev_involutive, append_assoc.
  reflexivity.
Qed.

Lemma TrimSpace_www (rest : string) :
  exists t, TrimSpace ("www." ++ rest) = "www." ++ t.
Proof.
  unfold TrimSpace.
  assert (E : TrimLeftSpace ("www." ++ rest) = "www." ++ rest) by reflexivity.
  rewrite E. apply (TrimRightSpace_dot "www" rest).
Qed.

End Strings.

(** ** The fallback orchestrator *)

Section Orchestrator.

Variable lib : Library.
Variable net : Network.

(** The loop returns the result of the first provider that succeeds and
    runs nothing after it. *)
Lemma range_providers_cons (p : Provider) (ps : list Provider)
    (ip : string) (tr : list Event) :
  range_providers (p :: ps) ip tr =
  if success (fst (p ip tr)) then p ip tr
  else range_providers ps ip (snd (p ip tr)).
Proof.
  cbn [range_providers]. unfold bind, ret.
  destruct (p ip tr) as [[[l|] [e|]] tr']; reflexivity.
Qed.

Lemma range_providers_total (ps : list Provider) (ip : string) (tr : list Event) :
  (exists l, fst (range_providers ps ip tr) = (Some l, None))
  \/ fst (range_providers ps ip tr) = (None, Some AllProvidersFailed).
Proof.
  revert tr. induction ps as [|p ps IH]; intros tr.
  - right. reflexivity.
  - rewrite range_providers_cons.
    destruct (p ip tr) as [[[l|] [e|]] tr'] eqn:E; cbn [success fst snd];
      try apply IH.
    left. now exists l.
Qed.

Lemma range_providers_all_fail (ps : list Provider) (ip : string)
    (tr : list Event) :
  (forall p tr', In p ps -> success (fst (p ip tr')) = false) ->
  fst (range_providers ps ip tr) = (None, Some AllProvidersFailed).
Proof.
  revert tr. induction ps as [|p ps IH]; intros tr H.
  - reflexivity.
  - rewrite range_providers_cons, (H p tr (or_introl eq_refl)).
    apply IH. intros q tr' Hq. apply H. now right.
Qed.

(** Each adapter performs exactly one request, to its own endpoint. *)
Lemma adapter_traces (ip : string) (tr : list Event) :
  snd (getIPAPILocation net ip tr) = tr ++ [EvGet (nth 0 (provider_urls ip) "")]
  /\ snd (getIPInfoLocation lib net ip tr) = tr ++ [EvGet (nth 1 (provider_urls ip) "")]
  /\ snd (getFreeGeoIPLocation net ip tr) = tr ++ [EvGet (nth 2 (provider_urls ip) "")].
Proof. repeat split. Qed.

End Orchestrator.

(** ** [ValidateDomain] *)

Section Validate.

Variable lib : Library.
Variable net : Network.

(** The stages of [ValidateDomain], one network operation after the
    other. *)
Lemma ValidateDomain_stages (input : string) (tr : list Event) :
  ValidateDomain lib net input tr =
  let clean := cleanDomainInput lib input in
  if isValidDomainFormat clean then
    let tr1 := tr ++ [EvLookupIP clean] in
    match snd (net_LookupIP net (length tr) clean) with
    | Some _ => ((None, Some (Errorf "cannot resolve domain")), tr1)
    | None =>
        let tr2 := tr1 ++ [EvLookupIP clean] in
        let '(ips, err) := net_LookupIP net (length tr1) clean in
        match err with
        | Some e => ((None, Some (Errorf_v "unable to resolve IP: " e)), tr2)
        | None =>
            let ipAddress :=
              match ips with [] => EmptyString | ip0 :: _ => IP_String lib ip0 end in
            let '((location, err'), tr3) := getIPLocation lib net ipAddress tr2 in
            match err' with
            | Some e => ((None, Some (Errorf_v "unable to fetch location: " e)), tr3)
            | None => ((Some (mkDomainInfo input clean ipAddress location), None), tr3)
            end
        end
    end
  else ((None, Some (Errorf "invalid domain format")), tr).
Proof.
  unfold ValidateDomain. cbv zeta.
  destruct (isValidDomainFormat (cleanDomainInput lib input)); [|reflexivity].
  cbn [negb]. unfold bind at 1. unfold checkDNSResolution, bind, LookupIP, ret.
  destruct (net_LookupIP net (length tr) (cleanDomainInput lib input))
    as [ips1 [e1|]]; cbn [snd negb]; [reflexivity|].
  unfold getIPAddress, bind, LookupIP, ret.
  destruct (net_LookupIP net _ (cleanDomainInput lib input)) as [ips [e|]];
    [reflexivity|].
  destruct ips as [|ip0 ips];
    match goal with |- context [getIPLocation lib net ?a ?t] =>
      destruct (getIPLocation lib net a t) as [[l [e|]] tr3]
    end; reflexivity.
Qed.

End Validate.

(** ** Claims on the orchestrator *)

(** C1. [getIPLocation] invokes the adapters in the order [ipapi.co],
    [ipinfo.io], [freegeoip.app]; it returns the result of the first one
    that succeeds, unchanged, and requests nothing after it, so the
    requests it makes are a prefix of the three endpoints.  When the first
    two providers answer without city and country and the third answers
    Paris, France, exactly that record comes back after three requests;
    when the first knows the answer, one request is made. *)
Theorem getIPLocation_first_success (lib : Library) (net : Network)
    (ip : string) (tr : list Event) :
  let r1 := getIPAPILocation net ip tr in
  let r2 := getIPInfoLocation lib net ip (snd r1) in
  let r3 := getFreeGeoIPLocation net ip (snd r2) in
  let invoked :=
    if success (fst r1) then 1 else if success (fst r2) then 2 else 3 in
  fst (getIPLocation lib net ip tr) =
    (if success (fst r1) then fst r1
     else if success (fst r2) then fst r2
     else if success (fst r3) then fst r3
     else (None, Some AllProvidersFailed))
  /\ snd (getIPLocation lib net ip tr)
     = tr ++ map EvGet (firstn invoked (provider_urls ip))
  /\ getIPLocation example_lib paris_third "203.0.113.7" []
     = ((Some Paris, None), map EvGet (provider_urls "203.0.113.7"))
  /\ getIPLocation example_lib paris_first "203.0.113.7" []
     = ((Some Paris, None), [EvGet "https://ipapi.co/203.0.113.7/json/"]).
Proof.
  intros r1 r2 r3 invoked.
  assert (E : getIPLocation lib net ip tr =
              if success (fst r1) then r1
              else if success (fst r2) then r2
              else if success (fst r3) then r3
              else ((None, Some AllProvidersFailed), snd r3)).
  { unfold getIPLocation, locationProviders.
    rewrite !range_providers_cons. fold r1. destruct (success (fst r1)); [reflexivity|].
    fold r2. destruct (success (fst r2)); [reflexivity|].
    fold r3. destruct (success (fst r3)); reflexivity. }
  split; [|split; [|split; reflexivity]].
  - rewrite E. destruct (success (fst r1)); [reflexivity|].
    destruct (success (fst r2)); [reflexivity|].
    destruct (success (fst r3)); reflexivity.
  - rewrite E. subst invoked.
    destruct (adapter_traces lib net ip tr) as (T1 & _ & _).
    destruct (adapter_traces lib net ip (snd r1)) as (_ & T2 & _).
    destruct (adapter_traces lib net ip (snd r2)) as (_ & _ & T3).
    fold r1 in T1. fold r2 in T2. fold r3 in T3.
    destruct (success (fst r1)); [exact T1|].
    destruct (success (fst r2)).
    + rewrite T2, T1, <- app_assoc. reflexivity.
    + assert (T : snd r3 = tr ++ map EvGet (firstn 3 (provider_urls ip))).
      { rewrite T3, T2, T1, <- !app_assoc. reflexivity. }
      destruct (success (fst r3)); exact T.
Qed.

(** C2. [getIPLocation] fails with the one aggregate error exactly when
    the three adapters fail in its run, each at the moment it is invoked.
    When the adapters fail in the run that [ValidateDomain] makes for the
    address it resolved, no record is built: [ValidateDomain] returns a nil
    record with an error; and it returns [LocationUnavailable] exactly
    when the input passed the format check and both lookups and the
    adapters then failed. *)
Theorem all_fail_no_record (lib : Library) (net : Network) :
  (forall ip tr,
     fst (getIPLocation lib net ip tr) = (None, Some AllProvidersFailed)
     <-> providers_fail lib net ip tr = true)
  /\ (forall input tr,
        let clean := cleanDomainInput lib input in
        let first := net_LookupIP net (length tr) clean in
        let second := net_LookupIP net (length (tr ++ [EvLookupIP clean])) clean in
        let address :=
          match fst second with
          | [] => EmptyString
          | ip0 :: _ => IP_String lib ip0
          end in
        let asked := (tr ++ [EvLookupIP clean]) ++ [EvLookupIP clean] in
        (providers_fail lib net address asked = true ->
         exists e, fst (ValidateDomain lib net input tr) = (None, Some e))
        /\ (fst (ValidateDomain lib net input tr) = (None, Some LocationUnavailable)
            <-> isValidDomainFormat clean = true
                /\ snd first = None /\ snd second = None
                /\ providers_fail lib net address asked = true)).
Proof.
  assert (Hloc : forall ip tr,
            fst (getIPLocation lib net ip tr) = (None, Some AllProvidersFailed)
            <-> providers_fail lib net ip tr = true).
  { intros ip tr. unfold getIPLocation, locationProviders, providers_fail.
    rewrite !range_providers_cons. cbv zeta.
    destruct (getIPAPILocation net ip tr) as [[[l1|] [e1|]] t1];
      cbn [success fst snd negb andb];
      try (destruct (getIPInfoLocation lib net ip t1) as [[[l2|] [e2|]] t2];
           cbn [success fst snd negb andb];
           try (destruct (getFreeGeoIPLocation net ip t2) as [[[l3|] [e3|]] t3];
                cbn [success fst snd negb andb range_providers ret]));
      split; intros H; try discriminate H; reflexivity. }
  split; [exact Hloc|].
  intros input tr clean first second address asked.
  rewrite ValidateDomain_stages. cbv zeta. fold clean. fold first.
  destruct (isValidDomainFormat clean).
  2:{ cbn [fst]. split; [eauto|]. split; [discriminate|].
      intros (H & _). discriminate H. }
  destruct (snd first) as [e1|].
  { cbn [fst]. split; [eauto|]. split; [discriminate|].
    intros (_ & H & _). discriminate H. }
  fold second. subst address. destruct second as [ips [e2|]]; cbn [fst snd].
  { split; [eauto|]. split; [discriminate|].
    intros (_ & _ & H & _). discriminate H. }
  fold asked.
  set (address := match ips with [] => EmptyString | ip0 :: _ => IP_String lib ip0 end).
  specialize (Hloc address asked).
  destruct (range_providers_total (locationProviders lib net) address asked)
    as [[l Hl]|Hl]; fold (getIPLocation lib net address asked) in Hl;
    destruct (getIPLocation lib net address asked) as [[l' e'] tr3];
    cbn [fst] in Hl, Hloc; injection Hl as -> ->; cbn [fst].
  - assert (Hno : providers_fail lib net address asked = true -> False).
    { intros H. apply Hloc in H. discriminate H. }
    split; [intros H; destruct (Hno H)|]. split; [discriminate|].
    intros (_ & _ & _ & H). destruct (Hno H).
  - split; [eauto|]. split; [|reflexivity].
    intros _. repeat split. now apply Hloc.
Qed.

Lemma all_fail_no_record_witness :
  providers_fail example_lib picky "203.0.113.7"
    [EvLookupIP "example.com"; EvLookupIP "example.com"] = true
  /\ fst (ValidateDomain example_lib picky "example.com" [])
     = (None, Some LocationUnavailable)
  /\ fst (getIPLocation example_lib picky "198.51.100.1" []) = (Some Paris, None).
Proof.
  split; [reflexivity|]. split; [|reflexivity].
  apply (proj2 (proj2 (all_fail_no_record example_lib picky) "example.com" [])).
  repeat split.
Defined.

(** C10. [getIPLocation] returns a location and a nil error, or a nil
    location and an error, never nil with nil; hence the [Location] of a
    [DomainInfo] that [ValidateDomain] returns is not nil. *)
Theorem getIPLocation_never_nil_nil (lib : Library) (net : Network) :
  (forall ip tr,
     (exists l, fst (getIPLocation lib net ip tr) = (Some l, None))
     \/ (exists e, fst (getIPLocation lib net ip tr) = (None, Some e)))
  /\ (forall input tr info err,
        fst (ValidateDomain lib net input tr) = (Some info, err) ->
        err = None /\ Location info <> None).
Proof.
  split.
  - intros ip tr.
    destruct (range_providers_total (locationProviders lib net) ip tr) as [H|H].
    + now left.
    + right. eauto.
  - intros input tr info err. rewrite ValidateDomain_stages. cbv zeta.
    destruct (isValidDomainFormat _); [|discriminate].
    destruct (snd (net_LookupIP net (length tr) _)); [discriminate|].
    match goal with |- context [net_LookupIP net ?n ?d] =>
      destruct (net_LookupIP net n d) as [ips [e|]]
    end; [discriminate|].
    match goal with |- context [getIPLocation lib net ?a ?t] =>
      destruct (range_providers_total (locationProviders lib net) a t) as [[l H]|H];
      fold (getIPLocation lib net a t) in H;
      destruct (getIPLocation lib net a t) as [[l' e'] tr3]
    end; cbn [fst] in H; injection H as -> ->.
    + cbn [fst]. intros [= <- <-]. split; [reflexivity | discriminate].
    + discriminate.
Qed.

Lemma getIPLocation_never_nil_nil_witness :
  Location (mkDomainInfo "example.com" "example.com" "203.0.113.7" (Some Paris))
  <> None.
Proof.
  apply (proj2 (getIPLocation_never_nil_nil example_lib paris_first)
           "example.com" [] _ None).
  reflexivity.
Defined.

(** ** The pattern *)

(** C3 (amended). [isValidDomainFormat] accepts exactly the strings made of
    one label of 1 to 63 letters, digits and hyphens that neither starts
    nor ends with a hyphen, followed by one or more labels of at least two
    letters, each preceded by a dot. *)
Theorem isValidDomainFormat_shape (domain : string) :
  isValidDomainFormat domain = true <-> domain_shape (text domain).
Proof.
  unfold isValidDomainFormat. rewrite RegexpFacts.matches_correct.
  apply lang_domainRegex.
Qed.

(** C3, as stated, fails: a name whose middle label has a digit follows
    the grammar of the specification and is rejected. *)
Lemma isValidDomainFormat_rejects_digit_label :
  spec_domain_grammar (text "my-host.sub1.example.com")
  /\ isValidDomainFormat "my-host.sub1.example.com" = false.
Proof.
  split.
  - exists [text "my-host"; text "sub1"; text "example"], (text "com").
    repeat split. discriminate.
  - vm_compute. reflexivity.
Qed.

(** ** The normaliser *)

(** C9. White space is trimmed after the prefix ["www."] is stripped: on
    an input where white space precedes ["www."], nothing is stripped, the
    result is the trimmed input and still starts with ["www."]. *)
Theorem cleanDomainInput_space_before_www (lib : Library) (sp rest : string) :
  space_run sp ->
  let input := (sp ++ "www." ++ rest)%string in
  cleanDomainInput lib input = TrimSpace input
  /\ HasPrefix (cleanDomainInput lib input) "www." = true
  /\ cleanDomainInput lib "  www.example.com" = "www.example.com"
  /\ cleanDomainInput lib "www.example.com  " = "example.com".
Proof.
  intros Hsp input.
  destruct (space_run_head ("www." ++ rest) Hsp) as (H1 & H2 & H3).
  assert (E : cleanDomainInput lib input = TrimSpace input).
  { unfold cleanDomainInput. fold input in H1, H2, H3.
    rewrite H1, H2. cbn [orb]. now rewrite H3. }
  split; [exact E|]. split; [|split; reflexivity].
  rewrite E. unfold TrimSpace, input.
  rewrite (TrimLeftSpace_run _ Hsp).
  destruct (TrimSpace_www rest) as (t & Ht). unfold TrimSpace in Ht.
  rewrite Ht. unfold HasPrefix. now rewrite CutPrefix_append.
Qed.

Lemma cleanDomainInput_space_before_www_witness :
  cleanDomainInput example_lib ("  " ++ "www." ++ "example.com")
  = TrimSpace ("  " ++ "www." ++ "example.com").
Proof.
  apply (cleanDomainInput_space_before_www example_lib (sp := "  ") "example.com").
  apply (space_more (e := " ") (s := " ")).
  - unfold space_encodings. cbn. tauto.
  - apply space_one. unfold space_encodings. cbn. tauto.
Defined.

(** ** The provider adapters *)

Section Adapters.

Variable lib : Library.
Variable net : Network.

(** An adapter is its decoder applied to the outcome of one request. *)
Lemma adapter_outcomes (ip : string) (tr : list Event) :
  fst (getIPAPILocation net ip tr)
  = decode_location (http_Get net (length tr) (nth 0 (provider_urls ip) ""))
  /\ fst (getIPInfoLocation lib net ip tr)
     = decode_ipinfo lib (http_Get net (length tr) (nth 1 (provider_urls ip) ""))
  /\ fst (getFreeGeoIPLocation net ip tr)
     = decode_location (http_Get net (length tr) (nth 2 (provider_urls ip) "")).
Proof. repeat split. Qed.

Lemma city_or_country (l : LocationDetails) :
  String.eqb (City l) "" && String.eqb (Country l) "" = false ->
  City l <> EmptyString \/ Country l <> EmptyString.
Proof.
  intros H. apply andb_false_iff in H.
  destruct H as [H|H]; apply String.eqb_neq in H; auto.
Qed.

Lemma decode_location_some (r : error + Response) (l : LocationDetails)
    (e : option error) :
  decode_location r = (Some l, e) ->
  e = None /\ (City l <> EmptyString \/ Country l <> EmptyString).
Proof.
  unfold decode_location. destruct r as [err|resp]; [discriminate|].
  destruct (Body resp) as [err|body]; [discriminate|].
  destruct (Unmarshal_LocationDetails body LocationDetails_zero) as [l' [e'|]];
    [discriminate|].
  destruct (String.eqb (City l') "" && String.eqb (Country l') "") eqn:E;
    [discriminate|].
  intros [= <- <-]. split; [reflexivity|]. now apply city_or_country.
Qed.

Lemma decode_ipinfo_some (r : error + Response) (l : LocationDetails)
    (e : option error) :
  decode_ipinfo lib r = (Some l, e) ->
  e = None /\ (City l <> EmptyString \/ Country l <> EmptyString).
Proof.
  unfold decode_ipinfo. destruct r as [err|resp]; [discriminate|].
  destruct (Body resp) as [err|body]; [discriminate|].
  destruct (Unmarshal_map body) as [data [e'|]]; [discriminate|].
  match goal with |- context [if ?c then _ else _] => destruct c eqn:E end;
    [discriminate|].
  intros [= <- <-]. split; [reflexivity|]. now apply city_or_country.
Qed.

(** A location returned by the loop was returned by one of the
    providers. *)
Lemma range_providers_some (ps : list Provider) (ip : string)
    (tr : list Event) (l : LocationDetails) (e : option error) :
  fst (range_providers ps ip tr) = (Some l, e) ->
  exists p tr', In p ps /\ fst (p ip tr') = (Some l, None).
Proof.
  revert tr. induction ps as [|p ps IH]; intros tr.
  - discriminate.
  - rewrite range_providers_cons.
    destruct (p ip tr) as [[[l'|] [e'|]] tr'] eqn:E; cbn [success fst snd].
    + intros H. destruct (IH _ H) as (q & t & Hq & Hr). exists q, t. split; auto.
      now right.
    + intros [= <- <-]. exists p, tr. split; [now left|]. now rewrite E.
    + intros H. destruct (IH _ H) as (q & t & Hq & Hr). exists q, t. split; auto.
      now right.
    + intros H. destruct (IH _ H) as (q & t & Hq & Hr). exists q, t. split; auto.
      now right.
Qed.

End Adapters.

(** C6. A response whose city and country are both empty makes the adapter
    return an error and no location; so every location returned by an
    adapter or by [getIPLocation] has a city or a country. *)
Theorem adapters_need_city_or_country (lib : Library) (net : Network) :
  (forall status body,
     let l := fst (Unmarshal_LocationDetails body LocationDetails_zero) in
     City l = EmptyString -> Country l = EmptyString ->
     exists e, decode_location (inr (mkResponse status (inr body))) = (None, Some e))
  /\ (forall status body,
        let data := fst (Unmarshal_map body) in
        fst (assert_string (map_index data "city")) = EmptyString ->
        fst (assert_string (map_index data "country")) = EmptyString ->
        exists e, decode_ipinfo lib (inr (mkResponse status (inr body)))
                  = (None, Some e))
  /\ (forall p ip tr l e,
        In p (getIPLocation lib net :: locationProviders lib net) ->
        fst (p ip tr) = (Some l, e) ->
        e = None /\ (City l <> EmptyString \/ Country l <> EmptyString)).
Proof.
  assert (Hadapters : forall p ip tr l e,
            In p (locationProviders lib net) ->
            fst (p ip tr) = (Some l, e) ->
            e = None /\ (City l <> EmptyString \/ Country l <> EmptyString)).
  { intros p ip tr l e Hp. unfold locationProviders in Hp. cbn [In] in Hp.
    destruct (adapter_outcomes lib net ip tr) as (E1 & E2 & E3).
    destruct Hp as [<- | [<- | [<- | []]]].
    - rewrite E1. apply decode_location_some.
    - rewrite E2. apply decode_ipinfo_some.
    - rewrite E3. apply decode_location_some. }
  split; [|split].
  - intros status body l Hcity Hcountry. unfold decode_location. cbn [Body].
    subst l.
    destruct (Unmarshal_LocationDetails body LocationDetails_zero) as [l [e|]];
      [eauto|].
    cbn [fst] in Hcity, Hcountry. rewrite Hcity, Hcountry. cbn. eauto.
  - intros status body data Hcity Hcountry. unfold decode_ipinfo. cbn [Body].
    subst data. destruct (Unmarshal_map body) as [data [e|]]; [eauto|].
    cbn [fst] in Hcity, Hcountry. cbn [City Country set_City set_Region set_Country].
    rewrite Hcity, Hcountry. cbn. eauto.
  - intros p ip tr l e [<- | Hp] H.
    + destruct (range_providers_some _ _ _ H) as (q & tr' & Hq & Hr).
      split.
      * destruct (range_providers_total (locationProviders lib net) ip tr)
          as [[l' H']|H']; unfold getIPLocation in H; rewrite H' in H;
          congruence.
      * apply (Hadapters q ip tr' l None Hq Hr).
    + exact (Hadapters p ip tr l e Hp H).
Qed.

Lemma adapters_need_city_or_country_witness :
  (exists e, decode_location
               (answer 200 (JObject [("ip", JString "203.0.113.7")]))
             = (None, Some e))
  /\ (City Paris <> EmptyString \/ Country Paris <> EmptyString).
Proof.
  split.
  - apply (proj1 (adapters_need_city_or_country example_lib paris_first) 200
             (Wellformed (JObject [("ip", JString "203.0.113.7")])));
      reflexivity.
  - apply (proj2 (proj2 (adapters_need_city_or_country example_lib paris_first))
             (getIPLocation example_lib paris_first) "203.0.113.7" [] Paris None).
    + now left.
    + reflexivity.
Defined.

(** C7 (amended). A transport failure, a failure to read the body and a
    body on which [json.Unmarshal] returns an error, be it a body that is
    not JSON or one with a value of the wrong type, each make the adapter
    return the error and no location.  The status code is not looked at: a
    response is judged on its body alone. *)
Theorem adapters_report_failures (lib : Library) (net : Network) :
  reports_failures net (getIPAPILocation net)
    (fun ip => nth 0 (provider_urls ip) EmptyString) struct_error
  /\ reports_failures net (getIPInfoLocation lib net)
       (fun ip => nth 1 (provider_urls ip) EmptyString) map_error
  /\ reports_failures net (getFreeGeoIPLocation net)
       (fun ip => nth 2 (provider_urls ip) EmptyString) struct_error
  /\ struct_error Malformed = Some SyntaxError
  /\ map_error Malformed = Some SyntaxError
  /\ ignores_status getIPAPILocation
  /\ ignores_status (getIPInfoLocation lib)
  /\ ignores_status getFreeGeoIPLocation.
Proof.
  assert (Hstruct : forall status body err,
            struct_error body = Some err ->
            decode_location (inr (mkResponse status (inr body))) = (None, Some err)).
  { intros status body err H. unfold struct_error in H.
    unfold decode_location. cbn [Body].
    destruct (Unmarshal_LocationDetails body LocationDetails_zero) as [l e].
    cbn [snd] in H. now subst e. }
  assert (Hmap : forall status body err,
            map_error body = Some err ->
            decode_ipinfo lib (inr (mkResponse status (inr body))) = (None, Some err)).
  { intros status body err H. unfold map_error in H.
    unfold decode_ipinfo. cbn [Body].
    destruct (Unmarshal_map body) as [data e]. cbn [snd] in H. now subst e. }
  repeat split;
    try (intros; destruct (adapter_outcomes lib net ip tr) as (E1 & E2 & E3);
         rewrite ?E1, ?E2, ?E3;
         match goal with H : http_Get _ _ _ = _ |- _ => rewrite H end;
         solve [reflexivity | now apply Hstruct | now apply Hmap]).
  - intros lookup get status ip tr.
    unfold getIPAPILocation, bind, Get, ret. cbn [fst http_Get].
    destruct (get _ _) as [err|resp]; reflexivity.
  - intros lookup get status ip tr.
    unfold getIPInfoLocation, bind, Get, ret. cbn [fst http_Get].
    destruct (get _ _) as [err|resp]; reflexivity.
  - intros lookup get status ip tr.
    unfold getFreeGeoIPLocation, bind, Get, ret. cbn [fst http_Get].
    destruct (get _ _) as [err|resp]; reflexivity.
Qed.

Lemma adapters_report_failures_witness :
  fst (getIPAPILocation unreachable "203.0.113.7" [])
  = (None, Some (LibError "dial tcp: connection refused"))
  /\ fst (getFreeGeoIPLocation
            (answering (JObject [("city", JString "Paris");
                                 ("country_name", JString "France");
                                 ("latitude", JString "48.85")]))
            "203.0.113.7" [])
     = (None, Some (UnmarshalTypeError "string" "latitude")).
Proof.
  split.
  - apply (proj1 (adapters_report_failures example_lib unreachable)
             "203.0.113.7" []).
    reflexivity.
  - apply (proj2 (proj2 (proj1 (proj2 (proj2
             (adapters_report_failures example_lib
                (answering (JObject [("city", JString "Paris");
                                     ("country_name", JString "France");
                                     ("latitude", JString "48.85")])))))
             "203.0.113.7" [])) 200
             (Wellformed (JObject [("city", JString "Paris");
                                   ("country_name", JString "France");
                                   ("latitude", JString "48.85")])));
      reflexivity.
Defined.

(** C7, as stated, fails for the status code: a response 404 Not Found
    whose body names a city is returned as a success. *)
Lemma not_found_accepted :
  http_Get not_found_paris 0 "https://ipapi.co/203.0.113.7/json/"
  = answer 404 (JObject [("city", JString "Paris");
                         ("country_name", JString "France")])
  /\ fst (getIPAPILocation not_found_paris "203.0.113.7" []) = (Some Paris, None).
Proof. split; reflexivity. Qed.



(** ** The resolver *)

Section Resolver.

Variable lib : Library.
Variable net : Network.

(** A failed lookup stops [ValidateDomain] with [UnresolvableDomain]. *)
Lemma ValidateDomain_lookup_error (input : string) (tr : list Event)
    (ips : list net_IP) (e : error) :
  isValidDomainFormat (cleanDomainInput lib input) = true ->
  net_LookupIP net (length tr) (cleanDomainInput lib input) = (ips, Some e) ->
  fst (ValidateDomain lib net input tr)
  = (None, Some (Errorf "cannot resolve domain")).
Proof.
  intros Hfmt Hlookup. rewrite ValidateDomain_stages. cbv zeta.
  now rewrite Hfmt, Hlookup.
Qed.

(** With a result set that is not empty, the address is the text of its
    first element. *)
Lemma getIPAddress_first (domain : string) (tr : list Event)
    (ip0 : net_IP) (ips : list net_IP) :
  net_LookupIP net (length tr) domain = (ip0 :: ips, None) ->
  fst (getIPAddress lib net domain tr) = (IP_String lib ip0, None).
Proof.
  intros H. unfold getIPAddress, bind, LookupIP, ret. now rewrite H.
Qed.

(** With an empty result set and no error, [checkDNSResolution] holds and
    [getIPAddress] returns the empty string with a nil error. *)
Lemma empty_result_set (domain : string) (tr : list Event) :
  net_LookupIP net (length tr) domain = ([], None) ->
  fst (checkDNSResolution net domain tr) = true
  /\ fst (getIPAddress lib net domain tr) = (EmptyString, None).
Proof.
  intros H. unfold checkDNSResolution, getIPAddress, bind, LookupIP, ret.
  now rewrite H.
Qed.

End Resolver.

(** C4 fails on the code: when the lookups succeed with an empty result
    set, [getIPAddress] returns the empty string with a nil error, the
    providers are asked about the empty address, and the record returned
    has an empty [IPAddress]. *)
Theorem ValidateDomain_empty_address :
  ValidateDomain example_lib empty_lookup_paris "example.com" []
  = ((Some (mkDomainInfo "example.com" "example.com" "" (Some Paris)), None),
     [EvLookupIP "example.com"; EvLookupIP "example.com";
      EvGet "https://ipapi.co//json/"]).
Proof. vm_compute. reflexivity. Qed.

(** C5 fails on the code: a lookup that succeeds with an empty result set
    passes [checkDNSResolution], and [ValidateDomain] goes on to the
    providers instead of failing with [UnresolvableDomain]; a lookup that
    fails is reported as the claim says. *)
Theorem ValidateDomain_empty_result_set :
  fst (checkDNSResolution empty_lookup_unreachable "example.com" []) = true
  /\ fst (ValidateDomain example_lib empty_lookup_unreachable "example.com" [])
     = (None, Some LocationUnavailable)
  /\ fst (ValidateDomain example_lib no_such_host "example.com" [])
     = (None, Some (Errorf "cannot resolve domain")).
Proof. repeat split. Qed.

(** ** Examples *)

(** When the URL parses and its host is ["www.example.com"], scheme, path
    and ["www."] are all removed. *)
Lemma cleanDomainInput_url (lib : Library) :
  url_Hostname lib "https://www.example.com/path" = Some "www.example.com" ->
  cleanDomainInput lib "https://www.example.com/path" = "example.com".
Proof. intros H. unfold cleanDomainInput. cbn [HasPrefix CutPrefix]. now rewrite H. Qed.

(** A URL that does not parse is used as it is. *)
Example cleanDomainInput_unparsed :
  cleanDomainInput example_lib "http://www.example.com " = "http://www.example.com".
Proof. reflexivity. Qed.

Example cleanDomainInput_nbsp :
  cleanDomainInput example_lib
    ("example.com" ++ bytes [194; 160; 32; 226; 128; 137])%string
  = "example.com".
Proof. reflexivity. Qed.

Example isValidDomainFormat_accepts :
  map isValidDomainFormat
    ["example.com"; "my-host.example.com"; "sub1.example.co.uk"; "a.bc";
     "abcdefghijklmnopqrstuvwxyz0123456789-abcdefghijklmnopqrstuvwxyz.org"]
  = [true; true; true; true; true].
Proof. vm_compute. reflexivity. Qed.

Example isValidDomainFormat_rejects :
  map isValidDomainFormat
    ["not a domain"; "-bad.com"; "bad-.com"; "example"; "example.c";
     "example.c0m"; "a.sub-1.example.com"; ""; "example.com.";
     "abcdefghijklmnopqrstuvwxyz0123456789-abcdefghijklmnopqrstuvwxyz0.org"]
  = [false; false; false; false; false; false; false; false; false; false].
Proof. vm_compute. reflexivity. Qed.

(** An input that fails the format check is rejected before any network
    operation. *)
Lemma ValidateDomain_invalid_format (lib : Library) (net : Network)
    (input : string) (tr : list Event) :
  isValidDomainFormat (cleanDomainInput lib input) = false ->
  ValidateDomain lib net input tr
  = ((None, Some (Errorf "invalid domain format")), tr).
Proof. intros H. rewrite ValidateDomain_stages. cbv zeta. now rewrite H. Qed.

Example ValidateDomain_bad (lib : Library) (net : Network) :
  ValidateDomain lib net "-bad.com" []
  = ((None, Some (Errorf "invalid domain format")), []).
Proof. apply ValidateDomain_invalid_format. vm_compute. reflexivity. Qed.

Example ValidateDomain_paris :
  ValidateDomain example_lib paris_third "www.example.com" []
  = ((Some (mkDomainInfo "www.example.com" "example.com" "203.0.113.7"
              (Some Paris)), None),
     [EvLookupIP "example.com"; EvLookupIP "example.com";
      EvGet "https://ipapi.co/203.0.113.7/json/";
      EvGet "https://ipinfo.io/203.0.113.7/json";
      EvGet "https://freegeoip.app/json/203.0.113.7"]).
Proof. vm_compute. reflexivity. Qed.

Example Split_examples :
  Split "48.85,2.35" "," = ["48.85"; "2.35"]
  /\ Split "" "," = [""]
  /\ Split "1,2,3" "," = ["1"; "2"; "3"]
  /\ Split "48.85" "," = ["48.85"].
Proof. repeat split. Qed.

Example decimal_examples :
  map (fun s => option_map float64_of_decimal (decimal_literal s))
    ["0.5"; "-2"; "+.25"; "3."; "."; "1e3"; " 1"]
  = [Some (Some (S754_finite false 4503599627370496 (-53)));
     Some (Some (S754_finite true 4503599627370496 (-51)));
     Some (Some (S754_finite false 4503599627370496 (-54)));
     Some (Some (S754_finite false 6755399441055744 (-51)));
     None; None; None].
Proof. vm_compute. reflexivity. Qed.

(** Keys match the tags up to case, the last occurrence of a key wins, a
    null leaves the field alone and a value of the wrong type is an
    error. *)
Example Unmarshal_LocationDetails_examples :
  Unmarshal_LocationDetails
    (Wellformed (JObject [("City", JString "Lyon"); ("city", JString "Paris");
                          ("country_name", JNull); ("postal", JBool true)]))
    LocationDetails_zero
  = (mkLocationDetails "" "Paris" "" "" float64_zero float64_zero, None)
  /\ snd (Unmarshal_LocationDetails
            (Wellformed (JObject [("city", JNumber (inl float64_zero))]))
            LocationDetails_zero)
     = Some (UnmarshalTypeError "number" "city")
  /\ Unmarshal_LocationDetails (Wellformed JNull) LocationDetails_zero
     = (LocationDetails_zero, None)
  /\ snd (Unmarshal_LocationDetails (Wellformed (JArray [])) LocationDetails_zero)
     = Some (UnmarshalTypeError "array" "LocationDetails").
Proof. repeat split. Qed.

(** A field [loc] that is not made of two pieces leaves the coordinates at
    zero. *)
Example store_coordinates_three_pieces :
  store_coordinates example_lib [("loc", JString "48.85,2.35,35")]
    LocationDetails_zero
  = LocationDetails_zero.
Proof. reflexivity. Qed.

(** * Further properties *)

(** ** The alphabet of accepted names *)

Section Alphabet.

Lemma alpha_domain_byte (c : ascii) : is_alpha c = true -> domain_byte c = true.
Proof.
  unfold domain_byte, is_alnum_hyphen, is_alnum. intros ->. reflexivity.
Qed.

Lemma dotted_domain_bytes (rest : list (list ascii)) :
  forallb alpha_label rest = true -> forallb domain_byte (dotted rest) = true.
Proof.
  induction rest as [|l rest IH]; [reflexivity|].
  cbn [forallb]. rewrite andb_true_iff. intros [Hl Hrest].
  unfold dotted. cbn [map concat]. cbn [app forallb].
  rewrite forallb_app. fold (dotted rest). rewrite (IH Hrest), andb_true_r.
  unfold alpha_label in Hl. apply andb_true_iff in Hl. destruct Hl as [_ Hl].
  cbn. apply forallb_forall. intros c Hc.
  apply alpha_domain_byte. now apply (proj1 (forallb_forall _ _) Hl).
Qed.

(** The last byte of one or more dotted labels of letters is a letter. *)
Lemma dotted_last (rest : list (list ascii)) (first : list ascii) :
  rest <> [] -> forallb alpha_label rest = true ->
  is_alpha (last (first ++ dotted rest) "-"%char) = true.
Proof.
  revert first. induction rest as [|l rest IH]; intros first Hne Hall;
    [congruence|].
  cbn [forallb] in Hall. apply andb_true_iff in Hall. destruct Hall as [Hl Hrest].
  unfold dotted. cbn [map concat]. fold (dotted rest).
  destruct rest as [|l' rest'].
  - cbn [dotted map concat]. rewrite app_nil_r.
    unfold alpha_label in Hl. apply andb_true_iff in Hl. destruct Hl as [Hlen Hl].
    apply Nat.leb_le in Hlen.
    destruct (exists_last (l := l)) as (pre & c & ->).
    { intros ->. simpl in Hlen. lia. }
    change (first ++ ("."%char :: pre ++ [c]))
      with (first ++ (("."%char :: pre) ++ [c])).
    rewrite app_assoc, last_last.
    rewrite forallb_app in Hl. apply andb_true_iff in Hl. destruct Hl as [_ Hc].
    simpl in Hc. now rewrite andb_true_r in Hc.
  - replace (first ++ ("."%char :: l) ++ dotted (l' :: rest'))
      with ((first ++ "."%char :: l) ++ dotted (l' :: rest'))
      by now rewrite <- app_assoc.
    apply IH; [discriminate | exact Hrest].
Qed.

Lemma dotted_length (rest : list (list ascii)) :
  rest <> [] -> forallb alpha_label rest = true -> 3 <= length (dotted rest).
Proof.
  destruct rest as [|l rest]; [congruence|]. intros _ Hall.
  cbn [forallb] in Hall. apply andb_true_iff in Hall. destruct Hall as [Hl _].
  unfold alpha_label in Hl. apply andb_true_iff in Hl. destruct Hl as [Hlen _].
  apply Nat.leb_le in Hlen.
  unfold dotted. cbn [map concat]. rewrite length_app. simpl. lia.
Qed.

Lemma domain_shape_alphabet (s : list ascii) :
  domain_shape s ->
  forallb domain_byte s = true
  /\ 4 <= length s
  /\ In "."%char s
  /\ is_alnum (hd "-"%char s) = true
  /\ is_alpha (last s "-"%char) = true.
Proof.
  intros (first & rest & Hne & -> & Hfirst & Hrest).
  pose proof Hfirst as Hlabel. unfold label_ok in Hlabel.
  repeat rewrite andb_true_iff in Hlabel.
  destruct Hlabel as [[[[Hlo _] Hall] Hhd] _].
  apply Nat.leb_le in Hlo. apply negb_true_iff in Hhd.
  split; [|split; [|split; [|split]]].
  - rewrite forallb_app, (dotted_domain_bytes _ Hrest), andb_true_r.
    apply forallb_forall. intros c Hc. unfold domain_byte.
    now rewrite (proj1 (forallb_forall _ _) Hall c Hc).
  - rewrite length_app. pose proof (dotted_length Hne Hrest). lia.
  - apply in_or_app. right. destruct rest as [|l rest]; [congruence|].
    unfold dotted. cbn [map concat]. now left.
  - destruct first as [|c first]; [simpl in Hlo; lia|]. cbn [app hd].
    cbn [forallb] in Hall. apply andb_true_iff in Hall. destruct Hall as [Hc _].
    cbn [hd] in Hhd. now apply alnum_hyphen_alnum.
  - now apply dotted_last.
Qed.

Lemma valid_alphabet (domain : string) :
  isValidDomainFormat domain = true ->
  forallb domain_byte (text domain) = true
  /\ 4 <= length (text domain)
  /\ In "."%char (text domain)
  /\ is_alnum (hd "-"%char (text domain)) = true
  /\ is_alpha (last (text domain) "-"%char) = true.
Proof.
  intros H. apply domain_shape_alphabet, lang_domainRegex.
  now apply RegexpFacts.matches_correct.
Qed.

End Alphabet.

(** X1. A name accepted by [isValidDomainFormat] is made of letters, digits,
    hyphens and dots only, has at least four bytes, one of them a dot,
    starts with a letter or digit and ends with a letter; so a dotted
    IPv4 address is never accepted. *)
Theorem isValidDomainFormat_alphabet (domain : string) :
  isValidDomainFormat domain = true ->
  forallb domain_byte (text domain) = true
  /\ 4 <= length (text domain)
  /\ In "."%char (text domain)
  /\ is_alnum (hd "-"%char (text domain)) = true
  /\ is_alpha (last (text domain) "-"%char) = true.
Proof.
  intros H. unfold isValidDomainFormat in H.
  apply RegexpFacts.matches_correct in H.
  apply lang_domainRegex in H.
  exact (domain_shape_alphabet H).
Qed.

Lemma isValidDomainFormat_alphabet_witness :
  forallb domain_byte (text "example.com") = true
  /\ 4 <= length (text "example.com")
  /\ In "."%char (text "example.com")
  /\ is_alnum (hd "-"%char (text "example.com")) = true
  /\ is_alpha (last (text "example.com") "-"%char) = true.
Proof.
  apply (isValidDomainFormat_alphabet "example.com"). vm_compute. reflexivity.
Defined.

(** ** Letter case *)

Section LetterCase.

Variable f : ascii -> ascii.

Lemma deriv_invariant (c : ascii) (r : regexp) :
  class_invariant f r -> deriv (f c) r = deriv c r.
Proof.
  induction r as [| |cl|r1 IH1 r2 IH2|r1 IH1 r2 IH2|r1 IH1 lo hi];
    cbn [class_invariant deriv]; intros H.
  - reflexivity.
  - reflexivity.
  - now rewrite H.
  - destruct H as [H1 H2]. now rewrite (IH1 H1), (IH2 H2).
  - destruct H as [H1 H2]. now rewrite (IH1 H1), (IH2 H2).
  - now rewrite (IH1 H).
Qed.

Lemma class_invariant_deriv (c : ascii) (r : regexp) :
  class_invariant f r -> class_invariant f (deriv c r).
Proof.
  induction r as [| |cl|r1 IH1 r2 IH2|r1 IH1 r2 IH2|r1 IH1 lo hi];
    cbn [class_invariant deriv]; intros H.
  - exact I.
  - exact I.
  - destruct (cl c); exact I.
  - destruct H as [H1 H2].
    destruct (nullable r1); cbn [class_invariant]; auto.
  - destruct H as [H1 H2]. auto.
  - destruct hi as [[|h]|]; cbn [class_invariant]; auto.
Qed.

Lemma matches_invariant (r : regexp) (s : list ascii) :
  class_invariant f r -> matches r (map f s) = matches r s.
Proof.
  revert r. induction s as [|c s IH]; intros r H; cbn [map matches].
  - reflexivity.
  - rewrite (deriv_invariant c r H). apply IH. now apply class_invariant_deriv.
Qed.

End LetterCase.

Lemma text_lower (s : string) : text (lower s) = map to_lower (text s).
Proof. induction s as [|c s IH]; [reflexivity|]. cbn. now f_equal. Qed.

Lemma text_upper (s : string) : text (upper s) = map to_upper (text s).
Proof. induction s as [|c s IH]; [reflexivity|]. cbn. now f_equal. Qed.

Lemma domainRegex_lower : class_invariant to_lower domainRegex.
Proof.
  cbn [domainRegex class_invariant Opt Plus Lit].
  repeat split; intros c; destruct c as [[] [] [] [] [] [] [] []]; reflexivity.
Qed.

Lemma domainRegex_upper : class_invariant to_upper domainRegex.
Proof.
  cbn [domainRegex class_invariant Opt Plus Lit].
  repeat split; intros c; destruct c as [[] [] [] [] [] [] [] []]; reflexivity.
Qed.

(** X2. The format check does not depend on the case of the letters. *)
Theorem isValidDomainFormat_case (domain : string) :
  isValidDomainFormat (lower domain) = isValidDomainFormat domain
  /\ isValidDomainFormat (upper domain) = isValidDomainFormat domain.
Proof.
  unfold isValidDomainFormat. fold (text (lower domain)) (text (upper domain))
    (text domain).
  rewrite text_lower, text_upper. split.
  - apply matches_invariant, domainRegex_lower.
  - apply matches_invariant, domainRegex_upper.
Qed.

(** ** Trimming *)

Section Trimming.

Local Open Scope string_scope.

Lemma CutPrefix_append_r (e a r u : string) :
  CutPrefix e a = Some r -> CutPrefix e (a ++ u) = Some (r ++ u).
Proof.
  intros H. apply CutPrefix_inv in H. subst a.
  rewrite append_assoc. apply CutPrefix_append.
Qed.

Lemma cut_any_append (encs : list string) (a r u : string) :
  cut_any encs a = Some r -> exists r', cut_any encs (a ++ u) = Some r'.
Proof.
  induction encs as [|e encs IH]; cbn [cut_any]; [discriminate|].
  destruct (CutPrefix e a) as [r0|] eqn:E.
  - intros _. rewrite (CutPrefix_append_r _ _ u E). eauto.
  - intros H. destruct (CutPrefix e (a ++ u)); eauto.
Qed.

Lemma cut_any_empty (encs : list string) :
  forallb (fun e => negb (String.eqb e "")) encs = true ->
  cut_any encs "" = None.
Proof.
  intros H. destruct (cut_any encs "") as [r|] eqn:E; [|reflexivity].
  apply (cut_any_shorter _ _ H) in E. simpl in E. lia.
Qed.

(** With fuel for the whole string, nothing is left to trim. *)
Lemma trim_leading_done (encs : list string) (n : nat) (s : string) :
  forallb (fun e => negb (String.eqb e "")) encs = true ->
  String.length s <= n ->
  cut_any encs (trim_leading encs n s) = None.
Proof.
  intros Hencs. revert s. induction n as [|n IH]; intros s Hlen; cbn [trim_leading].
  - destruct s; [|simpl in Hlen; lia]. now apply cut_any_empty.
  - destruct (cut_any encs s) as [r|] eqn:E; [|exact E].
    apply IH. apply (cut_any_shorter _ _ Hencs) in E. lia.
Qed.

(** What is left after trimming is an end of the string. *)
Lemma trim_leading_suffix (encs : list string) (n : nat) (s : string) :
  exists p, s = p ++ trim_leading encs n s.
Proof.
  revert s. induction n as [|n IH]; intros s; cbn [trim_leading].
  - now exists "".
  - destruct (cut_any encs s) as [r|] eqn:E; [|now exists ""].
    assert (Hr : exists e, s = e ++ r).
    { clear IH. induction encs as [|e encs IHe]; cbn [cut_any] in E;
        [discriminate|].
      destruct (CutPrefix e s) as [r0|] eqn:E0; [|now apply IHe].
      injection E as <-. exists e. now apply CutPrefix_inv. }
    destruct Hr as (e & ->). destruct (IH r) as (p & Hp).
    exists (e ++ p). rewrite append_assoc. now rewrite <- Hp.
Qed.

Lemma trim_leading_none (encs : list string) (n : nat) (s : string) :
  cut_any encs s = None -> trim_leading encs n s = s.
Proof. intros H. destruct n; cbn [trim_leading]; [reflexivity | now rewrite H]. Qed.

Lemma length_srev (s : string) : String.length (srev s) = String.length s.
Proof.
  unfold srev.
  assert (L : forall l, String.length (string_of_list_ascii l) = length l).
  { induction l as [|c l IH]; simpl; congruence. }
  assert (T : forall t, length (list_ascii_of_string t) = String.length t).
  { induction t as [|c t IH]; simpl; congruence. }
  now rewrite L, length_rev, T.
Qed.

Lemma reversed_encodings_nonempty :
  forallb (fun e => negb (String.eqb e "")) (map srev space_encodings) = true.
Proof. reflexivity. Qed.

Lemma TrimSpace_trimmed (s : string) :
  starts_with_space (TrimSpace s) = false /\ ends_with_space (TrimSpace s) = false.
Proof.
  unfold TrimSpace. set (t := TrimLeftSpace s).
  assert (Ht : cut_any space_encodings t = None).
  { apply trim_leading_done; [exact space_encodings_nonempty | lia]. }
  split.
  - unfold starts_with_space.
    destruct (cut_any space_encodings (TrimRightSpace t)) as [r|] eqn:E;
      [|reflexivity].
    unfold TrimRightSpace in E.
    destruct (trim_leading_suffix (map srev space_encodings)
                (String.length t) (srev t)) as (p & Hp).
    apply (f_equal srev) in Hp. rewrite srev_involutive, srev_append in Hp.
    destruct (cut_any_append _ _ (srev p) E) as (r' & E').
    rewrite <- Hp in E'. congruence.
  - unfold ends_with_space, TrimRightSpace. rewrite srev_involutive.
    rewrite trim_leading_done; [reflexivity | exact reversed_encodings_nonempty|].
    now rewrite length_srev.
Qed.

Lemma TrimSpace_id (s : string) :
  starts_with_space s = false -> ends_with_space s = false -> TrimSpace s = s.
Proof.
  unfold starts_with_space, ends_with_space, TrimSpace. intros H1 H2.
  destruct (cut_any space_encodings s) eqn:E1; [discriminate|].
  destruct (cut_any (map srev space_encodings) (srev s)) eqn:E2; [discriminate|].
  unfold TrimLeftSpace. rewrite (trim_leading_none _ _ _ E1).
  unfold TrimRightSpace. rewrite (trim_leading_none _ _ _ E2).
  apply srev_involutive.
Qed.

End Trimming.

(** X3. The normalised domain neither starts nor ends with white space,
    whatever the input and whatever the URL parser returned. *)
Theorem cleanDomainInput_trimmed (lib : Library) (input : string) :
  starts_with_space (cleanDomainInput lib input) = false
  /\ ends_with_space (cleanDomainInput lib input) = false.
Proof.
  unfold cleanDomainInput.
  set (stripped := TrimPrefix _ "www.").
  destruct (TrimSpace_trimmed stripped) as [Hstart Hend].
  split; assumption.
Qed.

(** X4. Normalising twice changes nothing more when the first result does
    not start with a scheme or with ["www."].  The condition matters: only
    one ["www."] is stripped at a time. *)
Theorem cleanDomainInput_stable (lib : Library) (input : string) :
  let clean := cleanDomainInput lib input in
  HasPrefix clean "http://" = false ->
  HasPrefix clean "https://" = false ->
  HasPrefix clean "www." = false ->
  cleanDomainInput lib clean = clean
  /\ cleanDomainInput lib "www.www.example.com" = "www.example.com".
Proof.
  intros clean H1 H2 H3. split; [|reflexivity].
  unfold cleanDomainInput at 1. rewrite H1, H2. cbn [orb].
  unfold TrimPrefix. unfold HasPrefix in H3.
  destruct (CutPrefix "www." clean); [discriminate|].
  apply TrimSpace_id; apply (TrimSpace_trimmed _).
Qed.

Lemma cleanDomainInput_stable_witness :
  cleanDomainInput example_lib (cleanDomainInput example_lib "  example.com ")
  = cleanDomainInput example_lib "  example.com ".
Proof.
  apply (cleanDomainInput_stable example_lib "  example.com "); reflexivity.
Defined.

(** ** The normaliser on accepted names *)

Section ValidNames.

Local Open Scope string_scope.

Lemma alnum_no_space (c : ascii) (r : string) :
  is_alnum c = true ->
  cut_any space_encodings (String c r) = None
  /\ cut_any (map srev space_encodings) (String c r) = None.
Proof.
  destruct c as [[] [] [] [] [] [] [] []]; intros H;
    try discriminate H; split; reflexivity.
Qed.

Lemma text_string (c : ascii) (l : list ascii) (s : string) :
  text s = c :: l -> s = String c (string_of_list_ascii l).
Proof.
  intros H. rewrite <- (string_of_list_ascii_of_string s).
  unfold text in H. now rewrite H.
Qed.

Lemma valid_no_space (domain : string) :
  isValidDomainFormat domain = true ->
  starts_with_space domain = false /\ ends_with_space domain = false.
Proof.
  intros H. destruct (valid_alphabet _ H) as (_ & Hlen & _ & Hhd & Hlast).
  unfold starts_with_space, ends_with_space. split.
  - destruct (text domain) as [|c l] eqn:E; [simpl in Hlen; lia|].
    rewrite (text_string _ E). cbn [hd] in Hhd.
    now rewrite (proj1 (alnum_no_space _ _ Hhd)).
  - destruct (exists_last (l := text domain)) as (pre & c & E).
    { intros E. rewrite E in Hlen. simpl in Hlen. lia. }
    rewrite E, last_last in Hlast.
    unfold srev. fold (text domain). rewrite E, rev_app_distr. cbn [rev app].
    cbn [string_of_list_ascii].
    assert (Hc : is_alnum c = true) by (unfold is_alnum; now rewrite Hlast).
    now rewrite (proj2 (alnum_no_space _ _ Hc)).
Qed.

Lemma valid_no_scheme (domain : string) :
  isValidDomainFormat domain = true ->
  HasPrefix domain "http://" = false /\ HasPrefix domain "https://" = false.
Proof.
  intros H. destruct (valid_alphabet _ H) as (Hall & _).
  unfold HasPrefix. split.
  - destruct (CutPrefix "http://" domain) as [r|] eqn:E; [|reflexivity].
    apply CutPrefix_inv in E. subst domain.
    unfold text in Hall. rewrite text_append in Hall. discriminate Hall.
  - destruct (CutPrefix "https://" domain) as [r|] eqn:E; [|reflexivity].
    apply CutPrefix_inv in E. subst domain.
    unfold text in Hall. rewrite text_append in Hall. discriminate Hall.
Qed.

End ValidNames.

(** X5. A name that passes the format check is a fixed point of the
    normaliser unless it starts with ["www."], and the normaliser maps
    ["www."] followed by such a name to the name. *)
Theorem cleanDomainInput_valid (lib : Library) (domain : string) :
  isValidDomainFormat domain = true ->
  cleanDomainInput lib ("www." ++ domain)%string = domain
  /\ (HasPrefix domain "www." = false -> cleanDomainInput lib domain = domain).
Proof.
  intros H. destruct (valid_no_space _ H) as [Hs He].
  destruct (valid_no_scheme _ H) as [H1 H2]. split.
  - unfold cleanDomainInput. cbn [HasPrefix CutPrefix append Ascii.eqb Bool.eqb orb].
    unfold TrimPrefix. change ("www." ++ domain)%string
      with (String "w" (String "w" (String "w" (String "." domain)))).
    cbn [CutPrefix Ascii.eqb Bool.eqb]. now apply TrimSpace_id.
  - intros Hw. unfold cleanDomainInput. rewrite H1, H2. cbn [orb].
    unfold TrimPrefix. unfold HasPrefix in Hw.
    destruct (CutPrefix "www." domain); [discriminate|]. now apply TrimSpace_id.
Qed.

Lemma cleanDomainInput_valid_witness :
  cleanDomainInput example_lib "www.example.com" = "example.com"
  /\ cleanDomainInput example_lib "example.com" = "example.com".
Proof.
  destruct (cleanDomainInput_valid example_lib "example.com") as [H1 H2].
  - vm_compute. reflexivity.
  - split; [exact H1 | apply H2; reflexivity].
Defined.

(** ** URLs that do not parse *)

Section Unparsed.

Local Open Scope string_scope.

Variable c : ascii.

(** A prefix without the byte [c] of [x ++ c ++ y] lies within [x]. *)
Lemma CutPrefix_before_byte (p x y r : string) :
  has_byte c p = false ->
  CutPrefix p (x ++ String c y) = Some r ->
  exists x', x = p ++ x' /\ r = x' ++ String c y.
Proof.
  revert x. induction p as [|a p IH]; intros x Hp H.
  - cbn [CutPrefix] in H. injection H as <-. now exists x.
  - unfold has_byte in Hp. cbn [list_ascii_of_string existsb] in Hp.
    apply orb_false_iff in Hp. destruct Hp as [Hc Hp].
    destruct x as [|b x]; cbn [append CutPrefix] in H.
    + rewrite Ascii.eqb_sym, Hc in H. discriminate.
    + destruct (Ascii.eqb_spec a b) as [->|]; [|discriminate].
      destruct (IH x Hp H) as (x' & -> & ->). now exists x'.
Qed.

Lemma trim_leading_before_byte (encs : list string) (fuel : nat) (x y : string) :
  forallb (fun e => negb (has_byte c e)) encs = true ->
  exists x', trim_leading encs fuel (x ++ String c y) = x' ++ String c y.
Proof.
  intros Hencs. revert x. induction fuel as [|fuel IH]; intros x;
    cbn [trim_leading].
  - now exists x.
  - destruct (cut_any encs (x ++ String c y)) as [r|] eqn:E; [|now exists x].
    assert (Hr : exists x', r = x' ++ String c y).
    { clear IH. induction encs as [|e encs IHe]; cbn [cut_any] in E;
        [discriminate|].
      cbn [forallb] in Hencs. apply andb_true_iff in Hencs.
      destruct Hencs as [He Hencs]. apply negb_true_iff in He.
      destruct (CutPrefix e (x ++ String c y)) as [r0|] eqn:E0.
      - injection E as <-.
        destruct (CutPrefix_before_byte _ _ _ He E0) as (x' & _ & ->). now exists x'.
      - now apply IHe. }
    destruct Hr as (x' & ->). apply IH.
Qed.

(** Trimming on the right keeps everything up to a byte that belongs to
    no white-space rune. *)
Lemma TrimRightSpace_byte (a rest : string) :
  forallb (fun e => negb (has_byte c e)) (map srev space_encodings) = true ->
  exists t, TrimRightSpace (a ++ String c rest) = a ++ String c t.
Proof.
  intros Hc. unfold TrimRightSpace.
  generalize (String.length (a ++ String c rest)). intros fuel.
  rewrite srev_append, srev_cons, append_assoc. cbn [append].
  destruct (trim_leading_before_byte (map srev space_encodings) fuel
              (srev rest) (srev a) Hc) as (x' & ->).
  exists (srev x').
  rewrite srev_append, srev_cons, srev_involutive, append_assoc. reflexivity.
Qed.

End Unparsed.

Lemma colon_not_valid (a t : string) :
  isValidDomainFormat (a ++ String ":" t)%string = false.
Proof.
  destruct (isValidDomainFormat (a ++ String ":" t)%string) eqn:E; [|reflexivity].
  destruct (valid_alphabet _ E) as (Hall & _).
  unfold text in Hall. rewrite text_append, forallb_app in Hall.
  cbn [list_ascii_of_string forallb] in Hall.
  change (domain_byte ":") with false in Hall.
  rewrite andb_false_r in Hall. discriminate.
Qed.

(** X6. An input that starts with the scheme of a URL and that [url.Parse]
    rejects is never resolved: it is kept with its scheme, fails the format
    check and is refused before any network operation. *)
Theorem ValidateDomain_unparsed_url (lib : Library) (net : Network)
    (input : string) (tr : list Event) :
  HasPrefix input "http://" || HasPrefix input "https://" = true ->
  url_Hostname lib input = None ->
  ValidateDomain lib net input tr
  = ((None, Some (Errorf "invalid domain format")), tr).
Proof.
  intros Hscheme Hparse. apply ValidateDomain_invalid_format.
  unfold cleanDomainInput. rewrite Hscheme, Hparse.
  unfold HasPrefix in Hscheme.
  assert (Hin : exists a r, (a = "http" \/ a = "https")
                            /\ input = (a ++ String ":" r)%string).
  { destruct (CutPrefix "http://" input) as [r|] eqn:E1.
    - apply CutPrefix_inv in E1. exists "http", ("//" ++ r)%string. auto.
    - destruct (CutPrefix "https://" input) as [r|] eqn:E2; [|discriminate].
      apply CutPrefix_inv in E2. exists "https", ("//" ++ r)%string. auto. }
  destruct Hin as (a & r & Ha & ->).
  assert (E : TrimPrefix (a ++ String ":" r) "www." = (a ++ String ":" r)%string
              /\ TrimLeftSpace (a ++ String ":" r) = (a ++ String ":" r)%string).
  { destruct Ha as [-> | ->]; split; reflexivity. }
  destruct E as [E1 E2]. unfold TrimSpace. rewrite E1, E2.
  destruct (TrimRightSpace_byte ":" a r eq_refl) as (t & ->).
  apply colon_not_valid.
Qed.

Lemma ValidateDomain_unparsed_url_witness :
  ValidateDomain example_lib paris_first "https://exa mple.com/" []
  = ((None, Some (Errorf "invalid domain format")), []).
Proof.
  apply ValidateDomain_unparsed_url; reflexivity.
Defined.

(** ** The stages of [ValidateDomain] *)

Section Stages.

Variable lib : Library.
Variable net : Network.

Lemma getIPLocation_trace (ip : string) (tr : list Event) :
  exists k, 1 <= k <= 3
    /\ snd (getIPLocation lib net ip tr)
       = tr ++ map EvGet (firstn k (provider_urls ip)).
Proof.
  unfold getIPLocation, locationProviders. rewrite !range_providers_cons.
  destruct (adapter_traces lib net ip tr) as (T1 & _ & _).
  destruct (adapter_traces lib net ip (snd (getIPAPILocation net ip tr)))
    as (_ & T2 & _).
  destruct (adapter_traces lib net ip
              (snd (getIPInfoLocation lib net ip
                      (snd (getIPAPILocation net ip tr))))) as (_ & _ & T3).
  destruct (success (fst (getIPAPILocation net ip tr))).
  { exists 1. split; [lia | exact T1]. }
  destruct (success (fst (getIPInfoLocation lib net ip _))).
  { exists 2. split; [lia|]. rewrite T2, T1, <- app_assoc. reflexivity. }
  exists 3. split; [lia|].
  assert (T : snd (getFreeGeoIPLocation net ip
                     (snd (getIPInfoLocation lib net ip
                             (snd (getIPAPILocation net ip tr)))))
              = tr ++ map EvGet (firstn 3 (provider_urls ip))).
  { rewrite T3, T2, T1, <- !app_assoc. reflexivity. }
  destruct (success (fst (getFreeGeoIPLocation net ip _))); exact T.
Qed.

Lemma getIPLocation_some (ip : string) (tr : list Event)
    (l : LocationDetails) (e : option error) :
  fst (getIPLocation lib net ip tr) = (Some l, e) ->
  e = None /\ (City l <> EmptyString \/ Country l <> EmptyString).
Proof.
  intros H. split.
  - destruct (range_providers_total (locationProviders lib net) ip tr)
      as [[l' H']|H']; unfold getIPLocation in H; rewrite H' in H; congruence.
  - destruct (range_providers_some _ _ _ H) as (p & tr' & Hp & Hr).
    unfold locationProviders in Hp. cbn [In] in Hp.
    destruct (adapter_outcomes lib net ip tr') as (E1 & E2 & E3).
    destruct Hp as [<- | [<- | [<- | []]]].
    + rewrite E1 in Hr. now apply decode_location_some in Hr.
    + rewrite E2 in Hr. now apply decode_ipinfo_some in Hr.
    + rewrite E3 in Hr. now apply decode_location_some in Hr.
Qed.

Lemma getIPLocation_error (ip : string) (tr : list Event)
    (r : option LocationDetails) (e : error) :
  fst (getIPLocation lib net ip tr) = (r, Some e) ->
  r = None /\ e = AllProvidersFailed.
Proof.
  intros H.
  destruct (range_providers_total (locationProviders lib net) ip tr)
    as [[l' H']|H']; unfold getIPLocation in H; rewrite H' in H.
  - discriminate.
  - now injection H as <- <-.
Qed.

(** The two outcomes of [getIPLocation], with the requests made. *)
Lemma getIPLocation_cases (ip : string) (tr : list Event) :
  exists k, 1 <= k <= 3 /\
    ((exists l, getIPLocation lib net ip tr
                = ((Some l, None), tr ++ map EvGet (firstn k (provider_urls ip)))
                /\ (City l <> EmptyString \/ Country l <> EmptyString))
     \/ getIPLocation lib net ip tr
        = ((None, Some AllProvidersFailed),
           tr ++ map EvGet (firstn k (provider_urls ip)))).
Proof.
  destruct (getIPLocation_trace ip tr) as (k & Hk & Htr).
  exists k. split; [exact Hk|].
  pose proof (getIPLocation_some ip tr) as Hsome.
  pose proof (getIPLocation_error ip tr) as Herr.
  destruct (range_providers_total (locationProviders lib net) ip tr)
    as [[l H]|H]; fold (getIPLocation lib net ip tr) in H;
    destruct (getIPLocation lib net ip tr) as [q t]; cbn [fst snd] in *;
    subst q t.
  - left. exists l. split; [reflexivity|]. now apply (Hsome l None).
  - now right.
Qed.

End Stages.

(** X7. A record returned by [ValidateDomain] comes with a nil error, keeps
    the raw input, holds the normalised domain, which passes the format
    check, and a location with a city or a country; the network was asked
    twice to look that domain up and then one to three providers were
    asked, in their order, about the very address of the record. *)
Theorem ValidateDomain_record (lib : Library) (net : Network)
    (input : string) (tr : list Event) (info : DomainInfo) (err : option error) :
  fst (ValidateDomain lib net input tr) = (Some info, err) ->
  err = None
  /\ OriginalInput info = input
  /\ CleanDomain info = cleanDomainInput lib input
  /\ isValidDomainFormat (CleanDomain info) = true
  /\ (exists l, Location info = Some l
                /\ (City l <> EmptyString \/ Country l <> EmptyString))
  /\ (exists k, 1 <= k <= 3
        /\ snd (ValidateDomain lib net input tr)
           = tr ++ [EvLookupIP (CleanDomain info); EvLookupIP (CleanDomain info)]
                ++ map EvGet (firstn k (provider_urls (IPAddress info)))).
Proof.
  rewrite ValidateDomain_stages. cbv zeta.
  destruct (isValidDomainFormat (cleanDomainInput lib input)) eqn:Hfmt;
    [|discriminate].
  destruct (snd (net_LookupIP net (length tr) _)); [discriminate|].
  match goal with |- context [net_LookupIP net ?n ?d] =>
    destruct (net_LookupIP net n d) as [ips [e|]]
  end; [discriminate|].
  match goal with |- context [getIPLocation lib net ?a ?t] =>
    destruct (getIPLocation_cases lib net a t) as (k & Hk & [(l & -> & Hl) | ->])
  end; cbn [fst snd]; [|discriminate].
  intros [= <- <-]. cbn [OriginalInput CleanDomain IPAddress Location].
  repeat split; eauto.
  exists k. split; [exact Hk|]. rewrite <- !app_assoc. reflexivity.
Qed.

Lemma ValidateDomain_record_witness :
  isValidDomainFormat
    (CleanDomain (mkDomainInfo "www.example.com" "example.com" "203.0.113.7"
                    (Some Paris))) = true.
Proof.
  apply (ValidateDomain_record example_lib paris_third "www.example.com" []
           (err := None)).
  vm_compute. reflexivity.
Defined.

(** X8. The network operations of one call: the trace only grows, by at
    most two lookups, both of the normalised domain, followed by requests
    to at most three provider endpoints in their order, all for one
    address.  No provider is asked before both lookups were made, and
    nothing at all happens on the network when the format check fails. *)
Theorem ValidateDomain_footprint (lib : Library) (net : Network)
    (input : string) (tr : list Event) :
  exists n k ip,
    snd (ValidateDomain lib net input tr)
    = tr ++ repeat (EvLookupIP (cleanDomainInput lib input)) n
         ++ map EvGet (firstn k (provider_urls ip))
    /\ n <= 2 /\ k <= 3
    /\ (k = 0 \/ n = 2)
    /\ (isValidDomainFormat (cleanDomainInput lib input) = true \/ n + k = 0).
Proof.
  rewrite ValidateDomain_stages. cbv zeta.
  destruct (isValidDomainFormat (cleanDomainInput lib input)).
  - destruct (snd (net_LookupIP net (length tr) _)).
    { exists 1, 0, EmptyString. cbn [snd repeat firstn map].
      rewrite app_nil_r. repeat split; auto. }
    match goal with |- context [net_LookupIP net ?n ?d] =>
      destruct (net_LookupIP net n d) as [ips [e|]]
    end.
    { exists 2, 0, EmptyString. cbn [snd repeat firstn map].
      rewrite app_nil_r, <- app_assoc. repeat split; auto. }
    match goal with |- context [getIPLocation lib net ?a ?t] =>
      destruct (getIPLocation_cases lib net a t) as (k & Hk & [(l & -> & _) | ->]);
      exists 2, k, a
    end; cbn [snd repeat]; rewrite <- !app_assoc;
      repeat split; auto; lia.
  - exists 0, 0, EmptyString. cbn [snd repeat firstn map app].
    rewrite app_nil_r. repeat split; auto.
Qed.

(** X9. The errors of [ValidateDomain] and the stage each one comes from.
    An error is one of four: the format error, with the network untouched;
    the resolution error, when the first lookup failed; the address error,
    which wraps the error of the second lookup and arises only when the
    second lookup fails after the first succeeded; the location error,
    which always wraps the aggregate error of [getIPLocation] and never
    the error of a provider.  No record comes with an error. *)
Theorem ValidateDomain_errors (lib : Library) (net : Network)
    (input : string) (tr : list Event) (r : option DomainInfo) (e : error) :
  fst (ValidateDomain lib net input tr) = (r, Some e) ->
  let clean := cleanDomainInput lib input in
  let first := net_LookupIP net (length tr) clean in
  let second := net_LookupIP net (length (tr ++ [EvLookupIP clean])) clean in
  r = None
  /\ ((e = Errorf "invalid domain format"
       /\ isValidDomainFormat clean = false
       /\ snd (ValidateDomain lib net input tr) = tr)
      \/ (e = Errorf "cannot resolve domain"
          /\ isValidDomainFormat clean = true /\ snd first <> None)
      \/ (exists e2, e = Errorf_v "unable to resolve IP: " e2
                     /\ isValidDomainFormat clean = true
                     /\ snd first = None /\ snd second = Some e2)
      \/ (e = LocationUnavailable
          /\ isValidDomainFormat clean = true
          /\ snd first = None /\ snd second = None)).
Proof.
  intros H clean first second. revert H.
  rewrite ValidateDomain_stages. cbv zeta. fold clean. fold first.
  destruct (isValidDomainFormat clean).
  - destruct (snd first) as [e1|].
    { cbn [fst]. intros [= <- <-]. split; [reflexivity|].
      right. left. repeat split. discriminate. }
    fold second. destruct second as [ips [e2|]].
    { cbn [fst]. intros [= <- <-]. split; [reflexivity|].
      right. right. left. exists e2. auto. }
    match goal with |- context [getIPLocation lib net ?a ?t] =>
      destruct (getIPLocation_cases lib net a t) as (k & Hk & [(l & -> & _) | ->])
    end; cbn [fst]; [discriminate|].
    intros [= <- <-]. split; [reflexivity|]. right. right. right. auto.
  - cbn [fst snd]. intros [= <- <-]. split; [reflexivity|]. left. auto.
Qed.

Lemma ValidateDomain_errors_witness :
  fst (ValidateDomain example_lib flaky_lookup "example.com" [])
  = (None, Some (Errorf_v "unable to resolve IP: " (LibError "i/o timeout")))
  /\ @None DomainInfo = None.
Proof.
  split; [reflexivity|].
  apply (ValidateDomain_errors example_lib flaky_lookup "example.com" []
           (e := Errorf_v "unable to resolve IP: " (LibError "i/o timeout"))).
  reflexivity.
Defined.

(** X10. The address of a returned record is the text of the first address
    of the second lookup; the result of the first lookup and the other
    addresses of the second play no part. *)
Theorem ValidateDomain_second_lookup (lib : Library) (net : Network)
    (input : string) (tr : list Event) (ip0 : net_IP) (ips : list net_IP)
    (info : DomainInfo) (err : option error) :
  let clean := cleanDomainInput lib input in
  net_LookupIP net (length (tr ++ [EvLookupIP clean])) clean = (ip0 :: ips, None) ->
  fst (ValidateDomain lib net input tr) = (Some info, err) ->
  IPAddress info = IP_String lib ip0.
Proof.
  intros clean Hsecond. rewrite ValidateDomain_stages. cbv zeta. fold clean.
  destruct (isValidDomainFormat clean); [|discriminate].
  destruct (snd (net_LookupIP net (length tr) clean)); [discriminate|].
  rewrite Hsecond.
  match goal with |- context [getIPLocation lib net ?a ?t] =>
    destruct (getIPLocation_cases lib net a t) as (k & Hk & [(l & -> & _) | ->])
  end; cbn [fst]; [|discriminate].
  now intros [= <- <-].
Qed.

Lemma ValidateDomain_second_lookup_witness :
  IPAddress (mkDomainInfo "example.com" "example.com" "203.0.113.7" (Some Paris))
  = IP_String two_address_lib ["203"; "000"; "113"; "007"]%char.
Proof.
  apply (ValidateDomain_second_lookup two_address_lib moving_lookup
           "example.com" [] (ips := [["198"; "051"; "100"; "001"]%char])
           (err := None)); reflexivity.
Defined.

(** X11. Two inputs with the same normalised domain are treated alike: the
    same network operations, the same error, and records that differ in
    the raw input only. *)
Theorem ValidateDomain_same_clean (lib : Library) (net : Network)
    (input1 input2 : string) (tr : list Event) :
  cleanDomainInput lib input1 = cleanDomainInput lib input2 ->
  snd (ValidateDomain lib net input1 tr) = snd (ValidateDomain lib net input2 tr)
  /\ snd (fst (ValidateDomain lib net input1 tr))
     = snd (fst (ValidateDomain lib net input2 tr))
  /\ option_map resolved (fst (fst (ValidateDomain lib net input1 tr)))
     = option_map resolved (fst (fst (ValidateDomain lib net input2 tr))).
Proof.
  intros H. rewrite !ValidateDomain_stages. cbv zeta. rewrite H.
  destruct (isValidDomainFormat (cleanDomainInput lib input2)); [|auto].
  destruct (snd (net_LookupIP net (length tr) _)); [auto|].
  match goal with |- context [net_LookupIP net ?n ?d] =>
    destruct (net_LookupIP net n d) as [ips [e|]]
  end; [auto|].
  match goal with |- context [getIPLocation lib net ?a ?t] =>
    destruct (getIPLocation lib net a t) as [[l [e|]] tr3]
  end; auto.
Qed.

Lemma ValidateDomain_same_clean_witness :
  snd (ValidateDomain example_lib paris_third "www.example.com" [])
  = snd (ValidateDomain example_lib paris_third " example.com " []).
Proof.
  apply (ValidateDomain_same_clean example_lib paris_third
           "www.example.com" " example.com " []).
  reflexivity.
Defined.

(** ** More on the adapters *)

Section MoreAdapters.

Lemma Split_length (s : string) (sep : ascii) :
  length (Split s sep) = S (count_byte sep s).
Proof.
  induction s as [|c s IH]; [reflexivity|]. cbn [Split count_byte].
  destruct (Ascii.eqb c sep).
  - cbn [length]. now rewrite IH.
  - destruct (Split s sep) as [|piece pieces]; cbn [length] in *; lia.
Qed.

Lemma store_coordinates_place (lib : Library) (data : gomap) (l : LocationDetails) :
  place (store_coordinates lib data l) = place l.
Proof.
  unfold store_coordinates.
  destruct (assert_string (map_index data "loc")) as [loc [|]]; [|reflexivity].
  destruct (Split loc ",") as [|c0 [|c1 [|c2 cs]]]; reflexivity.
Qed.

(** The outcome of [decode_ipinfo] but for the coordinates: it does not
    depend on the library. *)
Lemma decode_ipinfo_place (lib1 lib2 : Library) (r : error + Response) :
  snd (decode_ipinfo lib1 r) = snd (decode_ipinfo lib2 r)
  /\ option_map place (fst (decode_ipinfo lib1 r))
     = option_map place (fst (decode_ipinfo lib2 r)).
Proof.
  unfold decode_ipinfo. destruct r as [err|resp]; [auto|].
  destruct (Body resp) as [err|body]; [auto|].
  destruct (Unmarshal_map body) as [data [e|]]; [auto|].
  pose proof (store_coordinates_place lib1 data LocationDetails_zero) as P1.
  pose proof (store_coordinates_place lib2 data LocationDetails_zero) as P2.
  destruct (store_coordinates lib1 data LocationDetails_zero) as [i1 c1 r1 n1 a1 o1].
  destruct (store_coordinates lib2 data LocationDetails_zero) as [i2 c2 r2 n2 a2 o2].
  unfold place in P1, P2. cbn in P1, P2.
  injection P1 as -> -> -> ->. injection P2 as -> -> -> ->.
  cbn [set_City set_Region set_Country City Country IP Region Latitude Longitude].
  destruct (_ && _); auto.
Qed.

Lemma decode_ipinfo_IP (lib : Library) (r : error + Response)
    (l : LocationDetails) (e : option error) :
  decode_ipinfo lib r = (Some l, e) -> IP l = EmptyString.
Proof.
  unfold decode_ipinfo. destruct r as [err|resp]; [discriminate|].
  destruct (Body resp) as [err|body]; [discriminate|].
  destruct (Unmarshal_map body) as [data [e'|]]; [discriminate|].
  pose proof (store_coordinates_place lib data LocationDetails_zero) as P.
  destruct (store_coordinates lib data LocationDetails_zero) as [i c r0 n a o].
  unfold place in P. cbn in P. injection P as -> -> -> ->.
  cbn [set_City set_Region set_Country City Country IP Region Latitude Longitude].
  destruct (_ && _); [discriminate|]. now intros [= <- <-].
Qed.

End MoreAdapters.

(** X12. The [ipinfo.io] adapter never fills the field [IP]: a location it
    returns has an empty [IP], whatever the body says. *)
Theorem getIPInfoLocation_no_IP (lib : Library) (net : Network)
    (ip : string) (tr : list Event) (l : LocationDetails) (e : option error) :
  fst (getIPInfoLocation lib net ip tr) = (Some l, e) -> IP l = EmptyString.
Proof.
  destruct (adapter_outcomes lib net ip tr) as (_ & E & _). rewrite E.
  apply decode_ipinfo_IP.
Qed.

Lemma getIPInfoLocation_no_IP_witness :
  IP (mkLocationDetails "" "Paris" "" "FR" binary64_48_85 binary64_2_35)
  = EmptyString.
Proof.
  apply (getIPInfoLocation_no_IP example_lib paris_coordinates "203.0.113.7" []
           (e := None)).
  reflexivity.
Defined.

(** The coordinates are touched only when [loc] is a string with exactly
    one comma. *)
Lemma store_coordinates_one_comma (lib : Library) (data : gomap)
    (l : LocationDetails) :
  (forall loc, map_index data "loc" = Some (JString loc) ->
               count_byte "," loc <> 1) ->
  store_coordinates lib data l = l.
Proof.
  intros H. unfold store_coordinates.
  destruct (map_index data "loc") as [[| | |loc| |]|] eqn:E; cbn [assert_string];
    try reflexivity.
  specialize (H loc eq_refl). pose proof (Split_length loc ",") as L.
  destruct (Split loc ",") as [|c0 [|c1 [|c2 cs]]]; try reflexivity.
  cbn [length] in L. lia.
Qed.

(** X14. What [fmt.Sscanf] makes of the pieces of [loc] decides the
    coordinates and nothing else: whether the [ipinfo.io] adapter succeeds,
    its error, its requests and the other fields of its location are the
    same whatever the scans return, failures included. *)
Theorem getIPInfoLocation_scan_ignored (lib1 lib2 : Library) (net : Network)
    (ip : string) (tr : list Event) :
  snd (getIPInfoLocation lib1 net ip tr) = snd (getIPInfoLocation lib2 net ip tr)
  /\ snd (fst (getIPInfoLocation lib1 net ip tr))
     = snd (fst (getIPInfoLocation lib2 net ip tr))
  /\ option_map place (fst (fst (getIPInfoLocation lib1 net ip tr)))
     = option_map place (fst (fst (getIPInfoLocation lib2 net ip tr))).
Proof.
  destruct (adapter_outcomes lib1 net ip tr) as (_ & E1 & _).
  destruct (adapter_outcomes lib2 net ip tr) as (_ & E2 & _).
  rewrite E1, E2. split; [reflexivity|]. apply decode_ipinfo_place.
Qed.

(** ** Decoding into [LocationDetails] *)

Section Decoding.

Lemma decode_string_cases (v : json) (tag old : string) :
  fst (decode_string v tag old) = old
  \/ exists s, v = JString s /\ decode_string v tag old = (s, None).
Proof. destruct v; cbn; eauto. Qed.

(** A member whose key does not name the city leaves the city alone; so
    for the country. *)
Lemma decode_member_keeps (l : LocationDetails) (key : string) (v : json) :
  (EqualFold key "city" = false ->
   City (fst (decode_member l key v)) = City l)
  /\ (EqualFold key "country_name" = false ->
      Country (fst (decode_member l key v)) = Country l).
Proof.
  unfold decode_member.
  destruct (EqualFold key "ip").
  { destruct (decode_string v "ip" (IP l)); split; reflexivity. }
  destruct (EqualFold key "city").
  { destruct (decode_string v "city" (City l)).
    split; [discriminate | reflexivity]. }
  destruct (EqualFold key "region").
  { destruct (decode_string v "region" (Region l)); split; reflexivity. }
  destruct (EqualFold key "country_name").
  { destruct (decode_string v "country_name" (Country l)).
    split; [reflexivity | discriminate]. }
  destruct (EqualFold key "latitude").
  { destruct (decode_float v "latitude" (Latitude l)); split; reflexivity. }
  destruct (EqualFold key "longitude").
  { destruct (decode_float v "longitude" (Longitude l)); split; reflexivity. }
  split; reflexivity.
Qed.

Lemma decode_members_keeps (members : list (string * json))
    (l : LocationDetails) (saved : option error) :
  forallb not_city_nor_country members = true ->
  City (fst (decode_members members l saved)) = City l
  /\ Country (fst (decode_members members l saved)) = Country l.
Proof.
  revert l saved. induction members as [|[key v] members IH]; intros l saved H.
  - auto.
  - cbn [forallb] in H. apply andb_true_iff in H. destruct H as [Hkv H].
    unfold not_city_nor_country in Hkv. cbn [fst] in Hkv.
    apply andb_true_iff in Hkv. destruct Hkv as [Hc Hn].
    apply negb_true_iff in Hc, Hn.
    cbn [decode_members].
    destruct (decode_member_keeps l key v) as [K1 K2].
    destruct (decode_member l key v) as [l' e]. cbn [fst] in K1, K2.
    destruct (IH l' (save_error saved e) H) as [I1 I2].
    rewrite I1, I2, (K1 Hc), (K2 Hn). auto.
Qed.

(** An error once saved is the error returned. *)
Lemma decode_members_saved (members : list (string * json))
    (l : LocationDetails) (e : error) :
  snd (decode_members members l (Some e)) = Some e.
Proof.
  revert l. induction members as [|[key v] members IH]; intros l.
  - reflexivity.
  - cbn [decode_members]. destruct (decode_member l key v) as [l' e'].
    cbn [save_error]. apply IH.
Qed.

Lemma EqualFold_tag (key tag other : string) :
  EqualFold key tag = true -> EqualFold key other = String.eqb (lower tag) (lower other).
Proof.
  unfold EqualFold. intros H. apply String.eqb_eq in H. now rewrite H.
Qed.

Lemma decode_member_wrong (l : LocationDetails) (key : string) (v : json) :
  wrong_type (key, v) = true ->
  exists e, snd (decode_member l key v) = Some e.
Proof.
  unfold wrong_type, string_tag, float_tag, decode_member.
  destruct (EqualFold key "ip") eqn:E1;
    [|destruct (EqualFold key "city") eqn:E2;
      [|destruct (EqualFold key "region") eqn:E3;
        [|destruct (EqualFold key "country_name") eqn:E4;
          [|destruct (EqualFold key "latitude") eqn:E5;
            [|destruct (EqualFold key "longitude") eqn:E6;
              [|discriminate]]]]]];
    match goal with E : EqualFold key ?tag = true |- _ =>
      repeat match goal with |- context [EqualFold key ?o] =>
        rewrite (EqualFold_tag key tag o E)
      end
    end;
    destruct v as [| |[f|]| | |]; cbn; intros H; try discriminate H; eauto.
Qed.

Lemma decode_members_wrong (members : list (string * json))
    (l : LocationDetails) (saved : option error) :
  existsb wrong_type members = true ->
  exists e, snd (decode_members members l saved) = Some e.
Proof.
  revert l saved. induction members as [|[key v] members IH]; intros l saved H.
  - discriminate.
  - cbn [existsb] in H. cbn [decode_members].
    destruct (wrong_type (key, v)) eqn:W.
    + destruct (decode_member_wrong l key v W) as (e & He).
      destruct (decode_member l key v) as [l' e']. cbn [snd] in He. subst e'.
      destruct saved as [e0|]; cbn [save_error];
        rewrite decode_members_saved; eauto.
    + cbn [orb] in H. destruct (decode_member l key v) as [l' e']. now apply IH.
Qed.

End Decoding.

(** Without a member named [city] or [country_name], up to letter case,
    [decode_location] fails. *)
Lemma decode_location_needs_members (status : nat)
    (members : list (string * json)) :
  forallb not_city_nor_country members = true ->
  exists e, decode_location (answer status (JObject members)) = (None, Some e).
Proof.
  intros H. unfold decode_location, answer. cbn [Body Unmarshal_LocationDetails].
  destruct (decode_members_keeps members LocationDetails_zero None H) as [K1 K2].
  destruct (decode_members members LocationDetails_zero None) as [l [e|]];
    [eauto|].
  cbn [fst] in K1, K2. rewrite K1, K2. cbn. eauto.
Qed.

(** One member of the wrong type makes [decode_location] fail. *)
Lemma decode_location_wrong_type (status : nat)
    (members : list (string * json)) :
  existsb wrong_type members = true ->
  exists e, decode_location (answer status (JObject members)) = (None, Some e).
Proof.
  intros H. unfold decode_location, answer. cbn [Body Unmarshal_LocationDetails].
  destruct (decode_members_wrong members LocationDetails_zero None H) as (e & He).
  destruct (decode_members members LocationDetails_zero None) as [l e'].
  cbn [snd] in He. subst e'. eauto.
Qed.


(** ** The schemas of the providers *)

Section Schemas.

Lemma decode_member_fields (l : LocationDetails) (key : string) (v : json) :
  wrong_type (key, v) = false ->
  decode_member l key v
  = (mkLocationDetails
       (pick_string "ip" (IP l) (key, v))
       (pick_string "city" (City l) (key, v))
       (pick_string "region" (Region l) (key, v))
       (pick_string "country_name" (Country l) (key, v))
       (pick_float "latitude" (Latitude l) (key, v))
       (pick_float "longitude" (Longitude l) (key, v)), None).
Proof.
  unfold wrong_type, string_tag, float_tag, decode_member, pick_string, pick_float.
  cbn [fst snd]. destruct l as [i c r n a o].
  cbn [IP City Region Country Latitude Longitude].
  destruct (EqualFold key "ip") eqn:E1;
    [|destruct (EqualFold key "city") eqn:E2;
      [|destruct (EqualFold key "region") eqn:E3;
        [|destruct (EqualFold key "country_name") eqn:E4;
          [|destruct (EqualFold key "latitude") eqn:E5;
            [|destruct (EqualFold key "longitude") eqn:E6;
              [|reflexivity]]]]]];
    match goal with E : EqualFold key ?tag = true |- _ =>
      repeat match goal with |- context [EqualFold key ?t] =>
        rewrite (EqualFold_tag key tag t E)
      end
    end;
    destruct v as [| |[f|]| | |]; cbn; intros H; try discriminate H;
    reflexivity.
Qed.

Lemma decode_members_fields (members : list (string * json))
    (l : LocationDetails) :
  existsb wrong_type members = false ->
  decode_members members l None = (fields_of members l, None).
Proof.
  revert l. induction members as [|[key v] members IH]; intros l H.
  - destruct l. reflexivity.
  - cbn [existsb] in H. apply orb_false_iff in H. destruct H as [W H].
    cbn [decode_members]. rewrite (decode_member_fields l key v W).
    cbn [save_error]. rewrite (IH _ H). reflexivity.
Qed.

Lemma map_index_delete (m : gomap) (k key : string) :
  String.eqb k key = false ->
  map_index (map_delete m k) key = map_index m key.
Proof.
  intros H. induction m as [|[k' v'] m IH]; [reflexivity|].
  cbn [map_delete map_index].
  destruct (String.eqb_spec k' k) as [->|Hk].
  - rewrite H. exact IH.
  - cbn [map_index]. now rewrite IH.
Qed.

Lemma map_index_store (m : gomap) (k key : string) (v : json) :
  map_index (map_store m k v) key
  = if String.eqb k key then Some v else map_index m key.
Proof.
  unfold map_store. cbn [map_index].
  destruct (String.eqb k key) eqn:E; [reflexivity|]. now apply map_index_delete.
Qed.

(** A key that no member bears is looked up in the map as before. *)
Lemma map_index_store_members (members : list (string * json)) (m : gomap)
    (key : string) :
  forallb (fun kv => negb (String.eqb (fst kv) key)) members = true ->
  map_index (store_members members m) key = map_index m key.
Proof.
  revert m. induction members as [|[k v] members IH]; intros m H.
  - reflexivity.
  - cbn [forallb fst] in H. apply andb_true_iff in H. destruct H as [Hk H].
    apply negb_true_iff in Hk. cbn [store_members].
    rewrite (IH _ H), map_index_store. now rewrite Hk.
Qed.

End Schemas.

(** [decode_location] on an object whose members are all of the right
    type. *)
Lemma decode_location_schema (status : nat) (members : list (string * json)) :
  existsb wrong_type members = false ->
  let l := fields_of members LocationDetails_zero in
  decode_location (answer status (JObject members))
  = if String.eqb (City l) "" && String.eqb (Country l) ""
    then (None, Some (Errorf "no location data"))
    else (Some l, None).
Proof.
  intros H l. unfold decode_location, answer. cbn [Body Unmarshal_LocationDetails].
  rewrite (decode_members_fields members LocationDetails_zero H). reflexivity.
Qed.

(** Without a member spelled [city] or [country], [decode_ipinfo] fails. *)
Lemma decode_ipinfo_needs_members (lib : Library) (status : nat)
    (members : list (string * json)) :
  forallb not_city_nor_country_exact members = true ->
  exists e, decode_ipinfo lib (answer status (JObject members)) = (None, Some e).
Proof.
  intros H. unfold decode_ipinfo, answer. cbn [Body Unmarshal_map].
  destruct (first_out_of_range (JObject members)); [eauto|].
  assert (Hcity : map_index (store_members members []) "city" = None).
  { rewrite map_index_store_members; [reflexivity|].
    apply forallb_forall. intros kv Hkv.
    apply (proj1 (forallb_forall _ _) H) in Hkv.
    unfold not_city_nor_country_exact in Hkv.
    now apply andb_true_iff in Hkv. }
  assert (Hcountry : map_index (store_members members []) "country" = None).
  { rewrite map_index_store_members; [reflexivity|].
    apply forallb_forall. intros kv Hkv.
    apply (proj1 (forallb_forall _ _) H) in Hkv.
    unfold not_city_nor_country_exact in Hkv.
    now apply andb_true_iff in Hkv. }
  rewrite Hcity, Hcountry. cbn. eauto.
Qed.

(** ** The adapters on JSON objects *)

(** X13. The [ipinfo.io] adapter sets the coordinates only when [loc] is a
    string with exactly one comma: in every other case, [loc] missing or
    not a string included, a location it returns has both coordinates at
    zero. *)
Theorem getIPInfoLocation_zero_coordinates (lib : Library) (net : Network)
    (ip : string) (tr : list Event) (status : nat)
    (members : list (string * json)) (l : LocationDetails) (e : option error) :
  answered net tr (nth 1 (provider_urls ip) EmptyString) status members ->
  (forall loc, map_index (store_members members []) "loc" = Some (JString loc) ->
               count_byte "," loc <> 1) ->
  fst (getIPInfoLocation lib net ip tr) = (Some l, e) ->
  Latitude l = float64_zero /\ Longitude l = float64_zero.
Proof.
  intros Hget Hloc. destruct (adapter_outcomes lib net ip tr) as (_ & E & _).
  rewrite E. unfold answered in Hget. rewrite Hget.
  unfold decode_ipinfo, answer. cbn [Body Unmarshal_map].
  destruct (first_out_of_range (JObject members)); [discriminate|].
  rewrite (store_coordinates_one_comma lib _ LocationDetails_zero Hloc).
  cbn [set_City set_Region set_Country City Country IP Region Latitude Longitude
       LocationDetails_zero].
  destruct (_ && _); [discriminate|]. intros [= <- <-]. split; reflexivity.
Qed.

Lemma getIPInfoLocation_zero_coordinates_witness :
  Latitude (mkLocationDetails "" "Paris" "" "" float64_zero float64_zero)
  = float64_zero
  /\ Longitude (mkLocationDetails "" "Paris" "" "" float64_zero float64_zero)
     = float64_zero.
Proof.
  apply (@getIPInfoLocation_zero_coordinates example_lib
           (answering (JObject [("city", JString "Paris");
                                ("loc", JString "48.85;2.35")]))
           "203.0.113.7" [] 200
           [("city", JString "Paris"); ("loc", JString "48.85;2.35")]
           _ None).
  - reflexivity.
  - intros loc [= <-]. cbn. discriminate.
  - reflexivity.
Defined.

(** X15. The [ipapi.co] and [freegeoip.app] adapters take the city from a
    member [city] and the country from a member [country_name] only: on a
    JSON object without a member of either name, up to letter case, they
    fail, whatever else the object holds, a member [country] included. *)
Theorem struct_adapters_need_members (net : Network) (ip : string)
    (tr : list Event) (status : nat) (members : list (string * json)) :
  forallb not_city_nor_country members = true ->
  (answered net tr (nth 0 (provider_urls ip) EmptyString) status members ->
   exists e, fst (getIPAPILocation net ip tr) = (None, Some e))
  /\ (answered net tr (nth 2 (provider_urls ip) EmptyString) status members ->
      exists e, fst (getFreeGeoIPLocation net ip tr) = (None, Some e)).
Proof.
  intros H. destruct (adapter_outcomes example_lib net ip tr) as (E1 & _ & E3).
  unfold answered. split; intros Hget.
  - rewrite E1, Hget. now apply decode_location_needs_members.
  - rewrite E3, Hget. now apply decode_location_needs_members.
Qed.

Lemma struct_adapters_need_members_witness :
  exists e,
    fst (getIPAPILocation
           (answering (JObject [("city_name", JString "Paris");
                                ("country", JString "FR")]))
           "203.0.113.7" [])
    = (None, Some e).
Proof.
  apply (proj1 (@struct_adapters_need_members
                  (answering (JObject [("city_name", JString "Paris");
                                       ("country", JString "FR")]))
                  "203.0.113.7" [] 200
                  [("city_name", JString "Paris"); ("country", JString "FR")]
                  eq_refl)).
  reflexivity.
Defined.

(** X16. One member of the wrong type spoils the whole answer of
    [ipapi.co] and [freegeoip.app]: when a member named after a field of
    [LocationDetails] holds a value that is neither null nor of the type of
    the field, the adapter fails, even if city and country are present and
    well typed. *)
Theorem struct_adapters_wrong_type (net : Network) (ip : string)
    (tr : list Event) (status : nat) (members : list (string * json)) :
  existsb wrong_type members = true ->
  (answered net tr (nth 0 (provider_urls ip) EmptyString) status members ->
   exists e, fst (getIPAPILocation net ip tr) = (None, Some e))
  /\ (answered net tr (nth 2 (provider_urls ip) EmptyString) status members ->
      exists e, fst (getFreeGeoIPLocation net ip tr) = (None, Some e)).
Proof.
  intros H. destruct (adapter_outcomes example_lib net ip tr) as (E1 & _ & E3).
  unfold answered. split; intros Hget.
  - rewrite E1, Hget. now apply decode_location_wrong_type.
  - rewrite E3, Hget. now apply decode_location_wrong_type.
Qed.

Lemma struct_adapters_wrong_type_witness :
  exists e,
    fst (getFreeGeoIPLocation
           (answering (JObject [("city", JString "Paris");
                                ("country_name", JString "France");
                                ("latitude", JString "48.85")]))
           "203.0.113.7" [])
    = (None, Some e).
Proof.
  apply (proj2 (@struct_adapters_wrong_type
                  (answering (JObject [("city", JString "Paris");
                                       ("country_name", JString "France");
                                       ("latitude", JString "48.85")]))
                  "203.0.113.7" [] 200
                  [("city", JString "Paris");
                   ("country_name", JString "France");
                   ("latitude", JString "48.85")] eq_refl)).
  reflexivity.
Defined.

(** X17. The schema of the [ipapi.co] and [freegeoip.app] adapters.  On a
    JSON object whose members are all of the right type, each field of the
    location takes the value of the last member named after it, up to
    letter case ([ip], [city], [region], [country_name], [latitude],
    [longitude]), a null leaving the field as it is and other members being
    skipped; the adapter succeeds with that location exactly when its city
    or its country is not empty, and fails with "no location data"
    otherwise. *)
Theorem struct_adapters_schema (net : Network) (ip : string)
    (tr : list Event) (status : nat) (members : list (string * json)) :
  existsb wrong_type members = false ->
  let l := fields_of members LocationDetails_zero in
  let outcome :=
    if String.eqb (City l) "" && String.eqb (Country l) ""
    then (None, Some (Errorf "no location data"))
    else (Some l, None) in
  (answered net tr (nth 0 (provider_urls ip) EmptyString) status members ->
   fst (getIPAPILocation net ip tr) = outcome)
  /\ (answered net tr (nth 2 (provider_urls ip) EmptyString) status members ->
      fst (getFreeGeoIPLocation net ip tr) = outcome).
Proof.
  intros H l outcome.
  destruct (adapter_outcomes example_lib net ip tr) as (E1 & _ & E3).
  unfold answered. split; intros Hget.
  - rewrite E1, Hget. now apply decode_location_schema.
  - rewrite E3, Hget. now apply decode_location_schema.
Qed.

Lemma struct_adapters_schema_witness :
  fst (getIPAPILocation
         (answering (JObject [("IP", JString "203.0.113.7");
                              ("city", JString "Lyon"); ("City", JString "Paris");
                              ("city", JNull); ("postal", JNumber (inr "1e999"));
                              ("country_name", JString "France");
                              ("latitude", JNumber (inl binary64_48_85));
                              ("longitude", JNumber (inl binary64_2_35))]))
         "203.0.113.7" [])
  = (Some (mkLocationDetails "203.0.113.7" "Paris" "" "France"
             binary64_48_85 binary64_2_35), None).
Proof.
  apply (proj1 (@struct_adapters_schema
                  (answering (JObject [("IP", JString "203.0.113.7");
                              ("city", JString "Lyon"); ("City", JString "Paris");
                              ("city", JNull); ("postal", JNumber (inr "1e999"));
                              ("country_name", JString "France");
                              ("latitude", JNumber (inl binary64_48_85));
                              ("longitude", JNumber (inl binary64_2_35))]))
                  "203.0.113.7" [] 200
                  [("IP", JString "203.0.113.7");
                   ("city", JString "Lyon"); ("City", JString "Paris");
                   ("city", JNull); ("postal", JNumber (inr "1e999"));
                   ("country_name", JString "France");
                   ("latitude", JNumber (inl binary64_48_85));
                   ("longitude", JNumber (inl binary64_2_35))]
                  eq_refl)).
  reflexivity.
Defined.

(** X18. The [ipinfo.io] adapter reads the members [city] and [country] by
    their exact names: a JSON object without a member spelled [city] or
    [country], byte for byte, makes it fail, even when it has a member
    [City] or [country_name] that the other adapters would accept. *)
Theorem getIPInfoLocation_exact_keys (lib : Library) (net : Network)
    (ip : string) (tr : list Event) (status : nat)
    (members : list (string * json)) :
  forallb not_city_nor_country_exact members = true ->
  answered net tr (nth 1 (provider_urls ip) EmptyString) status members ->
  exists e, fst (getIPInfoLocation lib net ip tr) = (None, Some e).
Proof.
  intros H Hget. destruct (adapter_outcomes lib net ip tr) as (_ & E & _).
  unfold answered in Hget. rewrite E, Hget.
  now apply decode_ipinfo_needs_members.
Qed.

Lemma getIPInfoLocation_exact_keys_witness :
  exists e,
    fst (getIPInfoLocation example_lib
           (answering (JObject [("City", JString "Paris");
                                ("country_name", JString "France")]))
           "203.0.113.7" [])
    = (None, Some e).
Proof.
  apply (@getIPInfoLocation_exact_keys example_lib
           (answering (JObject [("City", JString "Paris");
                                ("country_name", JString "France")]))
           "203.0.113.7" [] 200
           [("City", JString "Paris"); ("country_name", JString "France")]);
    reflexivity.
Defined.
